(** * gameLogic.h : the snake simulation and its snapshot publisher

    A shallow embedding of the classes of [gameLogic.h] (Board, Snake,
    FoodManager, CollisionDetector, DirectionController, StatePublisher and
    SnakeGameLogic), one Rocq module per C++ class, followed by the
    properties of the per-tick transition and of the publication protocol.

    Modelling conventions.
    - [int] is modelled by [Z].  The coordinate and counter arithmetic of
      the source ([+1], [-1], [rows / 2], [c - i], [growthPending + amount])
      is modelled without a bound, and describes the executions in which
      these stay inside the range of [int].  The score is different: a game
      with a large [pointsPerFood] leaves the range of [int] after a few
      meals, so [score += pointsPerFood] is modelled on the 32-bit two's
      complement [int] of the targets of this program, by [wrapInt]: the
      sum is reduced into [INT_MIN .. INT_MAX].  (Signed overflow is
      undefined in C++; wrapping is what the compiled program does.)  The
      theorems that state the score as a plain sum or product carry the
      hypothesis that it is representable.
    - [pair<int,int>] is [Z * Z]; [deque] and [vector] are lists, the deque
      with its front at the head of the list.
    - Methods that mutate a [Board&] argument return the new board next to
      the new object.
    - [mt19937] is not modelled: [placeRandom] receives the number drawn
      from the generator as an argument, and reduces it to the index range
      of [uniform_int_distribution<int>(0, size - 1)].
    - A call that throws or has no defined behaviour yields [LengthError] or
      [Undefined] in the [outcome] type below.
    - The two [shared_ptr<GameState>] buffers of the publisher are two heap
      cells addressed by [Buf]; a reader holds an address, not a copy. *)

From stdpp Require Import base list numbers sorting.

Local Open Scope Z_scope.

(** ** Outcomes of a call *)

Inductive outcome (A : Type) : Type :=
| Done (a : A)      (* the call returns *)
| LengthError       (* std::length_error from a vector constructor *)
| Undefined.        (* front() of an empty deque *)
Arguments Done {A} a.
Arguments LengthError {A}.
Arguments Undefined {A}.

(** ** Enumerations *)

Inductive Direction : Type := UP | DOWN | LEFT | RIGHT | NONE.

Inductive CellType : Type := EMPTY | SNAKE | FOOD | WALL.

#[global] Instance Direction_eq_dec : EqDecision Direction.
Proof. solve_decision. Defined.

#[global] Instance CellType_eq_dec : EqDecision CellType.
Proof. solve_decision. Defined.

#[global] Instance CellType_inhabited : Inhabited CellType := populate EMPTY.

(** [pair<int, int>]: (row, column). *)
Definition Position : Type := Z * Z.

(** ** The range of [int] *)

Definition INT_MIN : Z := -2147483648.
Definition INT_MAX : Z := 2147483647.

(** [z] is representable as an [int]. *)
Definition inInt (z : Z) : Prop := INT_MIN ≤ z ≤ INT_MAX.

(** The [int] that a 32-bit two's complement addition leaves when the
    mathematical result is [z]. *)
Definition wrapInt (z : Z) : Z := (z + 2147483648) `mod` 4294967296 - 2147483648.

(** ** struct GameState *)

Record GameState : Type := mkGameState {
  gs_board : list (list CellType);
  gs_rows : Z;
  gs_cols : Z;
  gs_score : Z;
  gs_gameOver : bool;
  gs_food : Position;
  gs_foodExists : bool;
  gs_snake : list Position;
  gs_snakeLength : Z
}.

(** ** class Board *)

Module Board.

Record t : Type := mk {
  grid : list (list CellType);
  rows : Z;
  cols : Z
}.

(** [vector<vector<int>>(rows, vector<int>(cols, EMPTY))]: a negative
    size converts to a [size_t] above [max_size()] and the constructor
    throws. *)
Definition initialize (rows cols : Z) : outcome t :=
  if (rows <? 0) || (cols <? 0) then LengthError
  else Done {| grid := replicate (Z.to_nat rows) (replicate (Z.to_nat cols) EMPTY);
               rows := rows;
               cols := cols |}.

Definition isInBounds (b : t) (r c : Z) : bool :=
  (0 <=? r) && (r <? rows b) && (0 <=? c) && (c <? cols b).

(** [grid[r][c]].  Every access of the source is guarded by [isInBounds]
    or by the loop bounds of [getEmptyCells]; on a grid of [rows] rows of
    [cols] cells the index is in range. *)
Definition at_ (g : list (list CellType)) (r c : Z) : CellType :=
  (g !!! Z.to_nat r) !!! Z.to_nat c.

Definition getCellType (b : t) (r c : Z) : CellType :=
  if negb (isInBounds b r c) then WALL else at_ (grid b) r c.

Definition setCellType (b : t) (r c : Z) (cellType : CellType) : t :=
  if isInBounds b r c
  then {| grid := <[Z.to_nat r := <[Z.to_nat c := cellType]> (grid b !!! Z.to_nat r)]> (grid b);
          rows := rows b;
          cols := cols b |}
  else b.

(** The two nested loops of [getEmptyCells], for any tag: the positions
    [(r, c)] with [0 <= r < rows], [0 <= c < cols] and [grid[r][c] == tag],
    in row-major order. *)
Definition cellsWith (tag : CellType) (g : list (list CellType)) (rows cols : Z)
  : list Position :=
  r ← seqZ 0 rows;
  c ← seqZ 0 cols;
  if decide (at_ g r c = tag) then [(r, c)] else [].

Definition getEmptyCells (b : t) : list Position :=
  cellsWith EMPTY (grid b) (rows b) (cols b).

Definition getRows (b : t) : Z := rows b.
Definition getCols (b : t) : Z := cols b.
Definition getGrid (b : t) : list (list CellType) := grid b.

End Board.

(** ** class Snake *)

Module Snake.

Record t : Type := mk {
  body : list Position;
  growthPending : Z
}.

(** The position of segment [i] computed by the [switch] of
    [initialize]. *)
Definition segment (startPos : Position) (direction : Direction) (i : Z) : Position :=
  let '(r, c) := startPos in
  match direction with
  | RIGHT => (r, c - i)
  | LEFT => (r, c + i)
  | UP => (r + i, c)
  | DOWN => (r - i, c)
  | NONE => (r, c)
  end.

(** One iteration of the loop of [initialize]. *)
Definition layStep (startPos : Position) (direction : Direction)
    (acc : t * Board.t) (i : Z) : t * Board.t :=
  let '(s, b) := acc in
  let '(r, c) := segment startPos direction i in
  ({| body := body s ++ [(r, c)]; growthPending := growthPending s |},
   Board.setCellType b r c SNAKE).

Definition initialize (startPos : Position) (length : Z) (direction : Direction)
    (board : Board.t) : t * Board.t :=
  foldl (layStep startPos direction)
        ({| body := []; growthPending := 0 |}, board)
        (seqZ 0 length).

(** [body.back()] is read after [push_front], on a non-empty deque: the
    default of [List.last] is never returned. *)
Definition move (newHead : Position) (s : t) (board : Board.t) : t * Board.t :=
  let body1 := newHead :: body s in
  let board1 := Board.setCellType board newHead.1 newHead.2 SNAKE in
  if 0 <? growthPending s
  then ({| body := body1; growthPending := growthPending s - 1 |}, board1)
  else
    let tail := List.last body1 newHead in
    ({| body := removelast body1; growthPending := growthPending s |},
     Board.setCellType board1 tail.1 tail.2 EMPTY).

Definition grow (amount : Z) (s : t) : t :=
  {| body := body s; growthPending := growthPending s + amount |}.

(** The loop runs over the indices [1 .. size - 1]. *)
Definition checkSelfCollision (s : t) (pos : Position) : bool :=
  bool_decide (pos ∈ drop 1 (body s)).

(** [body.front()]; [None] stands for the empty deque, on which the call
    is undefined. *)
Definition getHead (s : t) : option Position := head (body s).
Definition getBody (s : t) : list Position := body s.
Definition getLength (s : t) : nat := length (body s).
Definition hasPendingGrowth (s : t) : bool := 0 <? growthPending s.

End Snake.

(** ** class FoodManager *)

Module FoodManager.

Record t : Type := mk {
  position : Position;
  exists_ : bool
}.

(** The constructor: [exists(false)], and [position] value-initialised. *)
Definition new : t := {| position := (0, 0); exists_ := false |}.

(** [draw] is the output of the generator; [dist(rng)] lies in
    [0 .. emptyCells.size() - 1]. *)
Definition placeRandom (draw : nat) (f : t) (board : Board.t) : t * Board.t :=
  let emptyCells := Board.getEmptyCells board in
  match emptyCells with
  | [] => ({| position := position f; exists_ := false |}, board)
  | _ :: _ =>
      let idx := (draw mod length emptyCells)%nat in
      let position := emptyCells !!! idx in
      ({| position := position; exists_ := true |},
       Board.setCellType board position.1 position.2 FOOD)
  end.

Definition remove (f : t) (board : Board.t) : t * Board.t :=
  if exists_ f
  then ({| position := position f; exists_ := false |},
        Board.setCellType board (position f).1 (position f).2 EMPTY)
  else (f, board).

Definition getPosition (f : t) : Position := position f.
Definition isPresent (f : t) : bool := exists_ f.

End FoodManager.

(** ** class CollisionDetector *)

Module CollisionDetector.

Definition isOutOfBounds (pos : Position) (board : Board.t) : bool :=
  negb (Board.isInBounds board pos.1 pos.2).

Definition isWall (pos : Position) (board : Board.t) : bool :=
  bool_decide (Board.getCellType board pos.1 pos.2 = WALL).

Definition isFood (pos : Position) (foodManager : FoodManager.t) : bool :=
  FoodManager.isPresent foodManager
  && bool_decide (pos = FoodManager.getPosition foodManager).

End CollisionDetector.

(** ** class DirectionController *)

Module DirectionController.

(** [atomicInput] is the mailbox; every value stored in it comes from a
    [Direction]. *)
Record t : Type := mk {
  current : Direction;
  next : Direction;
  atomicInput : Direction
}.

Definition new : t := {| current := NONE; next := NONE; atomicInput := NONE |}.

Definition isValidChange (d : t) (newDir : Direction) : bool :=
  match current d, newDir with
  | UP, DOWN => false
  | DOWN, UP => false
  | LEFT, RIGHT => false
  | RIGHT, LEFT => false
  | _, _ => true
  end.

Definition setInput (dir : Direction) (d : t) : t :=
  {| current := current d; next := next d; atomicInput := dir |}.

(** [exchange] returns the mailbox and leaves [NONE] in it. *)
Definition processInput (d : t) : t :=
  let inputDir := atomicInput d in
  let next1 :=
    if negb (bool_decide (inputDir = NONE)) && isValidChange d inputDir
    then inputDir else next d in
  {| current := next1; next := next1; atomicInput := NONE |}.

Definition getNextPosition (d : t) (currentPos : Position) : Position :=
  let '(newRow, newCol) := currentPos in
  match current d with
  | UP => (newRow - 1, newCol)
  | DOWN => (newRow + 1, newCol)
  | LEFT => (newRow, newCol - 1)
  | RIGHT => (newRow, newCol + 1)
  | NONE => (newRow, newCol)
  end.

Definition initialize (initialDir : Direction) (d : t) : t :=
  {| current := initialDir; next := initialDir; atomicInput := atomicInput d |}.

Definition getCurrent (d : t) : Direction := current d.

End DirectionController.

(** ** class StatePublisher *)

Module StatePublisher.

(** The addresses of the two [GameState] objects made by the
    constructor. *)
Inductive Buf : Type := BufA | BufB.

#[global] Instance Buf_eq_dec : EqDecision Buf.
Proof. solve_decision. Defined.

(** [heapA] and [heapB] are the contents of the two objects;
    [currentState], [writeBuffer] and [readBuffer] are the three shared
    pointers.  [history] is a ghost field, absent from the source: the
    values written by the calls to [publish], newest first. *)
Record t : Type := mk {
  heapA : GameState;
  heapB : GameState;
  currentState : Buf;
  writeBuffer : Buf;
  readBuffer : Buf;
  history : list GameState
}.

(** [make_shared<GameState>()] value-initialises its object. *)
Definition emptyState : GameState :=
  {| gs_board := []; gs_rows := 0; gs_cols := 0; gs_score := 0;
     gs_gameOver := false; gs_food := (0, 0); gs_foodExists := false;
     gs_snake := []; gs_snakeLength := 0 |}.

Definition new : t :=
  {| heapA := emptyState; heapB := emptyState;
     currentState := BufA; writeBuffer := BufA; readBuffer := BufB;
     history := [] |}.

(** Reading through a pointer. *)
Definition deref (p : t) (a : Buf) : GameState :=
  match a with BufA => heapA p | BufB => heapB p end.

(** The nine assignments through [writeBuffer->]: every field of the
    object is overwritten. *)
Definition snapshot (board : Board.t) (snake : Snake.t) (foodManager : FoodManager.t)
    (score : Z) (gameOver : bool) : GameState :=
  {| gs_board := Board.getGrid board;
     gs_rows := Board.getRows board;
     gs_cols := Board.getCols board;
     gs_score := score;
     gs_gameOver := gameOver;
     gs_food := FoodManager.getPosition foodManager;
     gs_foodExists := FoodManager.isPresent foodManager;
     gs_snake := Snake.getBody snake;
     gs_snakeLength := Z.of_nat (Snake.getLength snake) |}.

Definition publish (board : Board.t) (snake : Snake.t) (foodManager : FoodManager.t)
    (score : Z) (gameOver : bool) (p : t) : t :=
  let w := snapshot board snake foodManager score gameOver in
  {| heapA := match writeBuffer p with BufA => w | BufB => heapA p end;
     heapB := match writeBuffer p with BufA => heapB p | BufB => w end;
     currentState := writeBuffer p;
     writeBuffer := readBuffer p;
     readBuffer := writeBuffer p;
     history := w :: history p |}.

(** [getState] returns the pointer; the reader dereferences it later. *)
Definition getState (p : t) : Buf := currentState p.

End StatePublisher.

(** ** class SnakeGameLogic *)

Module SnakeGameLogic.

Record t : Type := mk {
  board : Board.t;
  snake : Snake.t;
  foodManager : FoodManager.t;
  directionController : DirectionController.t;
  statePublisher : StatePublisher.t;
  score : Z;
  pointsPerFood : Z;
  gameOver : bool
}.

(** The constructor.  The board is default-constructed and is given its
    dimensions by [initializeBoard]. *)
Definition new : t :=
  {| board := {| Board.grid := []; Board.rows := 0; Board.cols := 0 |};
     snake := {| Snake.body := []; Snake.growthPending := 0 |};
     foodManager := FoodManager.new;
     directionController := DirectionController.new;
     statePublisher := StatePublisher.new;
     score := 0;
     pointsPerFood := 10;
     gameOver := false |}.

(** [statePublisher.publish(board, snake, foodManager, score, gameOver)]. *)
Definition publish (g : t) : t :=
  {| board := board g; snake := snake g; foodManager := foodManager g;
     directionController := directionController g;
     statePublisher :=
       StatePublisher.publish (board g) (snake g) (foodManager g) (score g)
                              (gameOver g) (statePublisher g);
     score := score g; pointsPerFood := pointsPerFood g; gameOver := gameOver g |}.

(** [gameOver = true; statePublisher.publish(...); return false;] *)
Definition endGame (g : t) : bool * t :=
  (false,
   publish {| board := board g; snake := snake g; foodManager := foodManager g;
              directionController := directionController g;
              statePublisher := statePublisher g;
              score := score g; pointsPerFood := pointsPerFood g;
              gameOver := true |}).

Definition initializeBoard (rows cols startingLength pointsPerFood : Z)
    (initialDirection : Direction) (draw : nat) (g : t) : outcome t :=
  match Board.initialize rows cols with
  | Done board0 =>
      let dc := DirectionController.initialize initialDirection (directionController g) in
      let startPos := (rows `quot` 2, cols `quot` 2) in
      let '(snake1, board1) :=
        Snake.initialize startPos startingLength initialDirection board0 in
      let '(food1, board2) := FoodManager.placeRandom draw (foodManager g) board1 in
      Done (publish {| board := board2; snake := snake1; foodManager := food1;
                       directionController := dc;
                       statePublisher := statePublisher g;
                       score := 0; pointsPerFood := pointsPerFood;
                       gameOver := false |})
  | LengthError => LengthError
  | Undefined => Undefined
  end.

Definition setDirection (newDir : Direction) (g : t) : t :=
  {| board := board g; snake := snake g; foodManager := foodManager g;
     directionController := DirectionController.setInput newDir (directionController g);
     statePublisher := statePublisher g;
     score := score g; pointsPerFood := pointsPerFood g; gameOver := gameOver g |}.

(** The state at the point where [update] has consumed the input. *)
Definition afterInput (g : t) : t :=
  {| board := board g; snake := snake g; foodManager := foodManager g;
     directionController := DirectionController.processInput (directionController g);
     statePublisher := statePublisher g;
     score := score g; pointsPerFood := pointsPerFood g; gameOver := gameOver g |}.

(** [newHead]: the candidate head position of the tick. *)
Definition candidate (g : t) : option Position :=
  DirectionController.getNextPosition
    (DirectionController.processInput (directionController g))
    <$> Snake.getHead (snake g).

(** The food branch of [update]: grow, add the points, remove the food.
    [score += pointsPerFood] is an [int] addition. *)
Definition eat (newHead : Position) (g : t) : t :=
  if CollisionDetector.isFood newHead (foodManager g)
  then
    let snake1 := Snake.grow 1 (snake g) in
    let score1 := wrapInt (score g + pointsPerFood g) in
    let '(food1, board1) := FoodManager.remove (foodManager g) (board g) in
    {| board := board1; snake := snake1; foodManager := food1;
       directionController := directionController g;
       statePublisher := statePublisher g;
       score := score1; pointsPerFood := pointsPerFood g; gameOver := gameOver g |}
  else g.

(** [snake.move(newHead, board)]. *)
Definition moveSnake (newHead : Position) (g : t) : t :=
  let '(snake1, board1) := Snake.move newHead (snake g) (board g) in
  {| board := board1; snake := snake1; foodManager := foodManager g;
     directionController := directionController g;
     statePublisher := statePublisher g;
     score := score g; pointsPerFood := pointsPerFood g; gameOver := gameOver g |}.

(** [if (!foodManager.isPresent()) foodManager.placeRandom(board);] *)
Definition refillFood (draw : nat) (g : t) : t :=
  if negb (FoodManager.isPresent (foodManager g))
  then
    let '(food1, board1) := FoodManager.placeRandom draw (foodManager g) (board g) in
    {| board := board1; snake := snake g; foodManager := food1;
       directionController := directionController g;
       statePublisher := statePublisher g;
       score := score g; pointsPerFood := pointsPerFood g; gameOver := gameOver g |}
  else g.

(** One tick.  [draw] is the generator output used if food is placed. *)
Definition update (draw : nat) (g : t) : outcome (bool * t) :=
  if gameOver g then Done (false, g)
  else
    let g1 := afterInput g in
    match Snake.getHead (snake g1) with
    | None => Undefined
    | Some head =>
        let newHead := DirectionController.getNextPosition (directionController g1) head in
        if CollisionDetector.isOutOfBounds newHead (board g1) then Done (endGame g1)
        else if CollisionDetector.isWall newHead (board g1) then Done (endGame g1)
        else if Snake.checkSelfCollision (snake g1) newHead then Done (endGame g1)
        else
          let g2 := eat newHead g1 in
          let g3 := moveSnake newHead g2 in
          let g4 := refillFood draw g3 in
          if negb (FoodManager.isPresent (foodManager g4))
             && negb (Snake.hasPendingGrowth (snake g4))
          then Done (endGame g4)
          else Done (true, publish g4)
    end.

(** The accessors of the render thread read the current snapshot. *)
Definition getGameState (g : t) : StatePublisher.Buf :=
  StatePublisher.getState (statePublisher g).

Definition current (g : t) : GameState :=
  StatePublisher.deref (statePublisher g) (getGameState g).

Definition getRows (g : t) : Z := gs_rows (current g).
Definition getCols (g : t) : Z := gs_cols (current g).
Definition getScore (g : t) : Z := gs_score (current g).
Definition isGameOver (g : t) : bool := gs_gameOver (current g).

(** [getCellType(r, c)] of the render thread: the cell of the current
    snapshot, [WALL] outside the snapshot's dimensions. *)
Definition getCellType (g : t) (r c : Z) : CellType :=
  let state := current g in
  if (0 <=? r) && (r <? gs_rows state) && (0 <=? c) && (c <? gs_cols state)
  then Board.at_ (gs_board state) r c
  else WALL.

End SnakeGameLogic.

(** ** Sequences of calls *)

(** The calls a client makes after [initializeBoard]. *)
Inductive call : Type :=
| SetDirection (d : Direction)
| Update (draw : nat).

Definition step (g : SnakeGameLogic.t) (c : call) : outcome SnakeGameLogic.t :=
  match c with
  | SetDirection d => Done (SnakeGameLogic.setDirection d g)
  | Update draw =>
      match SnakeGameLogic.update draw g with
      | Done (_, g') => Done g'
      | LengthError => LengthError
      | Undefined => Undefined
      end
  end.

Fixpoint run (g : SnakeGameLogic.t) (cs : list call) : outcome SnakeGameLogic.t :=
  match cs with
  | [] => Done g
  | c :: cs' =>
      match step g c with
      | Done g' => run g' cs'
      | LengthError => LengthError
      | Undefined => Undefined
      end
  end.

(** ** Well-formed boards *)

(** The grid has [rows] rows of [cols] cells. *)
Definition wf_grid (g : list (list CellType)) (rows cols : Z) : Prop :=
  0 ≤ rows ∧ 0 ≤ cols ∧ length g = Z.to_nat rows
  ∧ Forall (λ row, length row = Z.to_nat cols) g.

Definition wf_board (b : Board.t) : Prop :=
  wf_grid (Board.grid b) (Board.rows b) (Board.cols b).

(** [inB b p]: [p] is a cell of the board. *)
Definition inB (b : Board.t) (p : Position) : Prop :=
  Board.isInBounds b p.1 p.2 = true.

Definition cellAt (b : Board.t) (p : Position) : CellType :=
  Board.at_ (Board.grid b) p.1 p.2.

Definition setCell (b : Board.t) (p : Position) (tag : CellType) : Board.t :=
  Board.setCellType b p.1 p.2 tag.

(** The cells of a snapshot that carry the tag [SNAKE], and their number. *)
Definition snakeCellsOf (s : GameState) : list Position :=
  Board.cellsWith SNAKE (gs_board s) (gs_rows s) (gs_cols s).

Definition snakeCells (s : GameState) : Z := Z.of_nat (length (snakeCellsOf s)).

(** ** Reachable states *)

(** The states of a game object that was constructed, initialised with the
    given arguments, and then driven by [setDirection] and [update]. *)
Inductive reachable (rows cols startingLength pointsPerFood : Z)
    (initialDirection : Direction) : SnakeGameLogic.t → Prop :=
| reach_init draw g :
    SnakeGameLogic.initializeBoard rows cols startingLength pointsPerFood
      initialDirection draw SnakeGameLogic.new = Done g →
    reachable rows cols startingLength pointsPerFood initialDirection g
| reach_setDirection d g :
    reachable rows cols startingLength pointsPerFood initialDirection g →
    reachable rows cols startingLength pointsPerFood initialDirection
      (SnakeGameLogic.setDirection d g)
| reach_update draw g continues g' :
    reachable rows cols startingLength pointsPerFood initialDirection g →
    SnakeGameLogic.update draw g = Done (continues, g') →
    reachable rows cols startingLength pointsPerFood initialDirection g'.

(** The segments laid out by [Snake::initialize], head first. *)
Definition layout (startPos : Position) (length : Z) (direction : Direction)
  : list Position :=
  Snake.segment startPos direction <$> seqZ 0 length.

(** Every segment of the initial snake is a cell of the board. *)
Definition fitsBoard (rows cols startingLength : Z) (initialDirection : Direction) : Prop :=
  Forall (λ p : Position, 0 ≤ p.1 < rows ∧ 0 ≤ p.2 < cols)
         (layout (rows `quot` 2, cols `quot` 2) startingLength initialDirection).

(** The states of a [DirectionController] object: constructed, then driven
    through its public methods. *)
Inductive dc_reachable : DirectionController.t → Prop :=
| dc_new : dc_reachable DirectionController.new
| dc_initialize dir d :
    dc_reachable d → dc_reachable (DirectionController.initialize dir d)
| dc_setInput dir d :
    dc_reachable d → dc_reachable (DirectionController.setInput dir d)
| dc_processInput d :
    dc_reachable d → dc_reachable (DirectionController.processInput d).

(** The 180-degree reversals. *)
Definition reversal (heading request : Direction) : bool :=
  match heading, request with
  | UP, DOWN | DOWN, UP | LEFT, RIGHT | RIGHT, LEFT => true
  | _, _ => false
  end.

(** The board writes of the loop of [Snake::initialize]. *)
Definition markSnake (b : Board.t) (ps : list Position) : Board.t :=
  foldl (λ b p, setCell b p SNAKE) b ps.

(** The part of a tick that follows the three collision checks: the food
    branch, the move, and the placement of new food. *)
Definition advance (draw : nat) (newHead : Position) (g : SnakeGameLogic.t)
  : SnakeGameLogic.t :=
  SnakeGameLogic.refillFood draw
    (SnakeGameLogic.moveSnake newHead (SnakeGameLogic.eat newHead g)).

(** The test of the win condition. *)
Definition boardFull (g : SnakeGameLogic.t) : bool :=
  negb (FoodManager.isPresent (SnakeGameLogic.foodManager g))
  && negb (Snake.hasPendingGrowth (SnakeGameLogic.snake g)).

(** The snapshot that [publish] writes for a state. *)
Definition snapshotOf (g : SnakeGameLogic.t) : GameState :=
  StatePublisher.snapshot (SnakeGameLogic.board g) (SnakeGameLogic.snake g)
    (SnakeGameLogic.foodManager g) (SnakeGameLogic.score g) (SnakeGameLogic.gameOver g).

(** The snapshots published so far (ghost), newest first. *)
Definition published (g : SnakeGameLogic.t) : list GameState :=
  StatePublisher.history (SnakeGameLogic.statePublisher g).

(** ** Concrete games *)

(** The game object after [initializeBoard] on a fresh object, and after a
    sequence of calls. *)
Definition started (rows cols startingLength pointsPerFood : Z)
    (initialDirection : Direction) (draw : nat) : SnakeGameLogic.t :=
  match SnakeGameLogic.initializeBoard rows cols startingLength pointsPerFood
          initialDirection draw SnakeGameLogic.new with
  | Done g => g
  | _ => SnakeGameLogic.new
  end.

Definition after (g : SnakeGameLogic.t) (cs : list call) : SnakeGameLogic.t :=
  match run g cs with
  | Done g' => g'
  | _ => g
  end.

(** A one-cell board; the first tick runs into the edge. *)
Definition edgeHit : SnakeGameLogic.t :=
  Eval vm_compute in after (started 1 1 1 10 RIGHT 0) [Update 0].

(** A board of two cells: the snake on the right one, the food on the left
    one, heading left. *)
Definition lastCell : SnakeGameLogic.t :=
  Eval vm_compute in started 1 2 1 10 LEFT 0.

(** A snake of four segments that has turned up, left, and is asked to turn
    down, onto the cell of its tail. *)
Definition tailChase : SnakeGameLogic.t :=
  Eval vm_compute in
    after (started 3 6 4 10 RIGHT 0)
          [SetDirection UP; Update 0; SetDirection LEFT; Update 0; SetDirection DOWN].

(** The spec's 10 x 10 game: three segments, heading right, and the same
    game two ticks later. *)
Definition opening : SnakeGameLogic.t :=
  Eval vm_compute in started 10 10 3 10 RIGHT 0.

Definition twoTicksLater : SnakeGameLogic.t :=
  Eval vm_compute in after opening [Update 0; Update 0].

(** A game started without a heading: the three segments share a cell. *)
Definition stacked : SnakeGameLogic.t :=
  Eval vm_compute in started 10 10 3 10 NONE 0.

(** A 3 x 3 board with a snake of five segments heading right: the start
    cell is (1,1) and the last three segments fall off the board. *)
Definition crowded : SnakeGameLogic.t :=
  Eval vm_compute in started 3 3 5 10 RIGHT 0.

(** A 3 x 3 board with a snake of ten segments. *)
Definition overlong : SnakeGameLogic.t :=
  Eval vm_compute in started 3 3 10 10 RIGHT 0.

(** A 2 x 2 game started without a heading and with three segments on
    (1,1).  The snake goes up, eats at (0,0) going left, the new food is
    placed on (1,1), where two segments still are, the snake goes down and
    is asked to turn right, onto (1,1). *)
Definition foodUnderSnake : SnakeGameLogic.t :=
  Eval vm_compute in
    after (started 2 2 3 10 NONE 0)
          [SetDirection UP; Update 0; SetDirection LEFT; Update 1;
           SetDirection DOWN; Update 0; SetDirection RIGHT].

(** ** Invariants of the simulation *)

(** The [SNAKE] cells of the board are the cells of the segments. *)
Definition snakeMarked (b : Board.t) (body : list Position) : Prop :=
  ∀ p, inB b p → (cellAt b p = SNAKE ↔ p ∈ body).

(** The food, when there is one, is on a cell tagged [FOOD]. *)
Definition foodMarked (b : Board.t) (f : FoodManager.t) : Prop :=
  FoodManager.exists_ f = true →
  inB b (FoodManager.position f) ∧ cellAt b (FoodManager.position f) = FOOD.

(** What holds of the board, the snake and the food in every state of a
    game that started with a heading. *)
Record consistent (g : SnakeGameLogic.t) : Prop := mkConsistent {
  cons_wf : wf_board (SnakeGameLogic.board g);
  cons_growth : Snake.growthPending (SnakeGameLogic.snake g) = 0;
  cons_nodup : NoDup (Snake.body (SnakeGameLogic.snake g));
  cons_heading :
    DirectionController.current (SnakeGameLogic.directionController g) ≠ NONE;
  cons_next :
    DirectionController.next (SnakeGameLogic.directionController g)
    = DirectionController.current (SnakeGameLogic.directionController g);
  cons_cells :
    snakeMarked (SnakeGameLogic.board g) (Snake.body (SnakeGameLogic.snake g));
  cons_food :
    foodMarked (SnakeGameLogic.board g) (SnakeGameLogic.foodManager g)
}.

(** The board agrees with the snake and with the food. *)
Definition marked (g : SnakeGameLogic.t) : Prop :=
  wf_board (SnakeGameLogic.board g)
  ∧ snakeMarked (SnakeGameLogic.board g) (Snake.body (SnakeGameLogic.snake g))
  ∧ foodMarked (SnakeGameLogic.board g) (SnakeGameLogic.foodManager g).

(** Two states with the same board dimensions, points per food and
    direction controller. *)
Definition sameFrame (g g' : SnakeGameLogic.t) : Prop :=
  (∀ q, inB (SnakeGameLogic.board g') q ↔ inB (SnakeGameLogic.board g) q)
  ∧ SnakeGameLogic.directionController g' = SnakeGameLogic.directionController g
  ∧ SnakeGameLogic.pointsPerFood g' = SnakeGameLogic.pointsPerFood g.

(** The snake lies on the board. *)
Definition onBoard (g : SnakeGameLogic.t) : Prop :=
  ∀ p, p ∈ Snake.body (SnakeGameLogic.snake g) → inB (SnakeGameLogic.board g) p.

(** In every published snapshot the [SNAKE] cells are the segments, each
    once, and the reported length is the number of segments. *)
Definition historyCounted (g : SnakeGameLogic.t) : Prop :=
  Forall (λ s, snakeCellsOf s ≡ₚ gs_snake s
               ∧ gs_snakeLength s = Z.of_nat (length (gs_snake s)))
         (published g).

(** ** Further notions *)

(** A controller with the given heading and an empty mailbox. *)
Definition heading (d : Direction) : DirectionController.t :=
  DirectionController.initialize d DirectionController.new.

(** Two positions one unit step apart. *)
Definition adjacent (p q : Position) : Prop :=
  Z.abs (p.1 - q.1) + Z.abs (p.2 - q.2) = 1.

(** Every segment is one unit step from the next one. *)
Fixpoint contiguous (l : list Position) : Prop :=
  match l with
  | p :: l' =>
      match l' with
      | q :: _ => adjacent p q ∧ contiguous l'
      | [] => True
      end
  | [] => True
  end.

(** A sequence of calls of [Snake::move], one per new head position. *)
Definition moveAll (heads : list Position) (sb : Snake.t * Board.t) : Snake.t * Board.t :=
  foldl (λ sb newHead, Snake.move newHead sb.1 sb.2) sb heads.

(** The order in which the loops of [getEmptyCells] visit the cells. *)
Definition rowMajor (p q : Position) : Prop :=
  p.1 < q.1 ∨ (p.1 = q.1 ∧ p.2 < q.2).

(** A well-formed board without a [WALL] cell. *)
Definition sound (b : Board.t) : Prop :=
  wf_board b ∧ ∀ p, inB b p → cellAt b p ≠ WALL.

(** The [FOOD] cells of the board are the cell of the food, when there is
    one, and no cell otherwise. *)
Definition foodTagged (b : Board.t) (f : FoodManager.t) : Prop :=
  ∀ p, inB b p →
       (cellAt b p = FOOD ↔ FoodManager.exists_ f = true ∧ p = FoodManager.position f).

(** The scores of a list of snapshots, newest first, never increase towards
    the older ones. *)
Definition scoresDescend (l : list GameState) : Prop :=
  StronglySorted (λ newer older, gs_score older ≤ gs_score newer) l.

(** The snake lengths of a list of snapshots, newest first, never increase
    towards the older ones. *)
Definition lengthsDescend (l : list GameState) : Prop :=
  StronglySorted (λ newer older, gs_snakeLength older ≤ gs_snakeLength newer) l.

(** ** Lemmas on [int] *)

Section IntFacts.

Lemma wrapInt_small z : inInt z → wrapInt z = z.
Proof.
  unfold inInt, INT_MIN, INT_MAX, wrapInt. intros Hz.
  rewrite Z.mod_small; lia.
Qed.

Lemma wrapInt_inInt z : inInt (wrapInt z).
Proof.
  unfold inInt, INT_MIN, INT_MAX, wrapInt.
  pose proof (Z.mod_pos_bound (z + 2147483648) 4294967296). lia.
Qed.

(** Adding to a wrapped sum is adding to the sum. *)
Lemma wrapInt_add a b : wrapInt (wrapInt a + b) = wrapInt (a + b).
Proof.
  unfold wrapInt. f_equal.
  replace ((a + 2147483648) `mod` 4294967296 - 2147483648 + b + 2147483648)
    with ((a + 2147483648) `mod` 4294967296 + b) by lia.
  rewrite Zplus_mod_idemp_l. f_equal. lia.
Qed.

End IntFacts.

(** ** Lemmas on the board *)

Section BoardFacts.
Implicit Types (b : Board.t) (p q : Position) (tag : CellType).

Lemma inB_spec b p :
  inB b p ↔ 0 ≤ p.1 < Board.rows b ∧ 0 ≤ p.2 < Board.cols b.
Proof. unfold inB, Board.isInBounds. rewrite !andb_true_iff. lia. Qed.

Lemma inB_dec b p : inB b p ∨ ¬ inB b p.
Proof. unfold inB. destruct (Board.isInBounds b p.1 p.2); auto. Qed.

Lemma initialize_done rows cols :
  0 ≤ rows → 0 ≤ cols →
  Board.initialize rows cols =
    Done {| Board.grid := replicate (Z.to_nat rows) (replicate (Z.to_nat cols) EMPTY);
            Board.rows := rows; Board.cols := cols |}.
Proof.
  intros Hr Hc. unfold Board.initialize.
  destruct (rows <? 0) eqn:E1; [lia|]. destruct (cols <? 0) eqn:E2; [lia|]. done.
Qed.

Lemma initialize_wf rows cols b : Board.initialize rows cols = Done b → wf_board b.
Proof.
  unfold Board.initialize.
  destruct (rows <? 0) eqn:E1; [done|]. destruct (cols <? 0) eqn:E2; [done|].
  intros [= <-]. repeat split; simpl; [lia | lia | by rewrite length_replicate |].
  apply Forall_replicate. by rewrite length_replicate.
Qed.

Lemma initialize_empty rows cols b p :
  Board.initialize rows cols = Done b → inB b p → cellAt b p = EMPTY.
Proof.
  unfold Board.initialize.
  destruct (rows <? 0) eqn:E1; [done|]. destruct (cols <? 0) eqn:E2; [done|].
  intros [= <-]. rewrite inB_spec. simpl. intros [Hr Hc].
  unfold cellAt, Board.at_. simpl.
  rewrite !lookup_total_replicate_2 by lia. done.
Qed.

Lemma setCell_rows b p tag : Board.rows (setCell b p tag) = Board.rows b.
Proof. unfold setCell, Board.setCellType. by destruct (Board.isInBounds _ _ _). Qed.

Lemma setCell_cols b p tag : Board.cols (setCell b p tag) = Board.cols b.
Proof. unfold setCell, Board.setCellType. by destruct (Board.isInBounds _ _ _). Qed.

Lemma inB_setCell b p tag q : inB (setCell b p tag) q ↔ inB b q.
Proof. by rewrite !inB_spec, setCell_rows, setCell_cols. Qed.

Lemma setCell_out b p tag : ¬ inB b p → setCell b p tag = b.
Proof.
  unfold inB, setCell, Board.setCellType.
  by destruct (Board.isInBounds _ _ _).
Qed.

Lemma setCell_wf b p tag : wf_board b → wf_board (setCell b p tag).
Proof.
  intros (Hr & Hc & Hlen & Hrows). unfold setCell, Board.setCellType.
  destruct (Board.isInBounds _ _ _) eqn:E; [|done].
  apply (inB_spec b p) in E as [E1 E2].
  repeat split; simpl; [done | done | by rewrite length_insert |].
  apply Forall_insert; [done|]. rewrite length_insert.
  rewrite Forall_lookup in Hrows. apply (Hrows (Z.to_nat p.1)).
  apply list_lookup_lookup_total_lt. lia.
Qed.

(** Reading a cell after a write. *)
Lemma cellAt_setCell b p tag q :
  wf_board b → inB b p → inB b q →
  cellAt (setCell b p tag) q = if decide (q = p) then tag else cellAt b q.
Proof.
  intros (Hr & Hc & Hlen & Hrows) Hp Hq.
  unfold setCell, Board.setCellType. rewrite Hp.
  apply inB_spec in Hp as [Hp1 Hp2]. apply inB_spec in Hq as [Hq1 Hq2].
  assert (Hrow : length (Board.grid b !!! Z.to_nat p.1) = Z.to_nat (Board.cols b)).
  { rewrite Forall_lookup in Hrows. apply (Hrows (Z.to_nat p.1)).
    apply list_lookup_lookup_total_lt. lia. }
  unfold cellAt, Board.at_. simpl.
  destruct (decide (q.1 = p.1)) as [E1|N1].
  - rewrite E1, list_lookup_total_insert_eq by lia.
    destruct (decide (q.2 = p.2)) as [E2|N2].
    + rewrite E2, list_lookup_total_insert_eq by lia.
      rewrite decide_True; [done|]. destruct p, q; simpl in *; congruence.
    + rewrite list_lookup_total_insert_ne by lia.
      rewrite decide_False; [done|]. congruence.
  - rewrite list_lookup_total_insert_ne by lia.
    rewrite decide_False; [done|]. congruence.
Qed.

Lemma cellAt_setCell_eq b p tag :
  wf_board b → inB b p → cellAt (setCell b p tag) p = tag.
Proof. intros. rewrite cellAt_setCell by done. by rewrite decide_True. Qed.

Lemma cellAt_setCell_ne b p tag q :
  wf_board b → inB b q → q ≠ p → cellAt (setCell b p tag) q = cellAt b q.
Proof.
  intros Hwf Hq Hne. destruct (inB_dec b p) as [Hp|Hp].
  - rewrite cellAt_setCell by done. by rewrite decide_False.
  - by rewrite setCell_out.
Qed.

Lemma getCellType_in b p : inB b p → Board.getCellType b p.1 p.2 = cellAt b p.
Proof. unfold inB, Board.getCellType. by intros ->. Qed.

(** The cells found by the two loops. *)
Lemma elem_of_cellsWith tag g rows cols p :
  p ∈ Board.cellsWith tag g rows cols
  ↔ (0 ≤ p.1 < rows ∧ 0 ≤ p.2 < cols) ∧ Board.at_ g p.1 p.2 = tag.
Proof.
  unfold Board.cellsWith. rewrite list_elem_of_bind. split.
  - intros (r & Hin & Hr). apply list_elem_of_bind in Hin as (c & Hin & Hc).
    apply elem_of_seqZ in Hr, Hc. case_decide; [|by apply not_elem_of_nil in Hin].
    apply list_elem_of_singleton in Hin as ->. simpl. split; [lia | done].
  - destruct p as [r c]. simpl. intros [[Hr Hc] Htag]. exists r. split.
    + apply list_elem_of_bind. exists c. split; [|apply elem_of_seqZ; lia].
      rewrite decide_True by done. by apply list_elem_of_singleton.
    + apply elem_of_seqZ. lia.
Qed.

Lemma elem_of_getEmptyCells b p :
  p ∈ Board.getEmptyCells b ↔ inB b p ∧ cellAt b p = EMPTY.
Proof. unfold Board.getEmptyCells. by rewrite elem_of_cellsWith, inB_spec. Qed.

Lemma NoDup_cellsWith tag g rows cols : NoDup (Board.cellsWith tag g rows cols).
Proof.
  unfold Board.cellsWith. apply NoDup_bind; [| |apply NoDup_seqZ].
  - intros r1 r2 p _ _ H1 H2.
    apply list_elem_of_bind in H1 as (c1 & H1 & _), H2 as (c2 & H2 & _).
    repeat case_decide; try by (apply not_elem_of_nil in H1 || apply not_elem_of_nil in H2).
    apply list_elem_of_singleton in H1, H2. congruence.
  - intros r _. apply NoDup_bind; [| |apply NoDup_seqZ].
    + intros c1 c2 p _ _ H1 H2.
      repeat case_decide; try by (apply not_elem_of_nil in H1 || apply not_elem_of_nil in H2).
      apply list_elem_of_singleton in H1, H2. congruence.
    + intros c _. case_decide; [apply NoDup_singleton | apply NoDup_nil_2].
Qed.

(** When the [SNAKE] cells are exactly the positions of a duplicate-free
    list of cells, the two loops find that list, up to the order. *)
Lemma snake_cells_permutation b (body : list Position) :
  NoDup body →
  (∀ p, p ∈ body → inB b p) →
  (∀ p, inB b p → (cellAt b p = SNAKE ↔ p ∈ body)) →
  Board.cellsWith SNAKE (Board.grid b) (Board.rows b) (Board.cols b) ≡ₚ body.
Proof.
  intros Hnd Hin Hcells. apply NoDup_Permutation.
  - apply NoDup_cellsWith.
  - done.
  - intros p. rewrite elem_of_cellsWith, <-inB_spec. split.
    + intros [Hp Htag]. by apply Hcells.
    + intros Hp. split; [by apply Hin|]. apply Hcells; auto.
Qed.

End BoardFacts.

(** ** The direction controller *)

Section DirectionFacts.
Import DirectionController.

Lemma dc_reachable_next d : dc_reachable d → next d = current d.
Proof. induction 1; done. Qed.

(** Every pair of a heading and a mailbox content occurs. *)
Lemma dc_reachable_any heading mailbox :
  ∃ d, dc_reachable d ∧ current d = heading ∧ atomicInput d = mailbox.
Proof.
  exists (setInput mailbox (initialize heading new)).
  split; [|done]. apply dc_setInput, dc_initialize, dc_new.
Qed.

Lemma isValidChange_reversal d request :
  isValidChange d request = negb (reversal (current d) request).
Proof. unfold isValidChange. by destruct (current d), request. Qed.

Lemma processInput_current d :
  current (processInput d) =
    if negb (bool_decide (atomicInput d = NONE))
       && negb (reversal (current d) (atomicInput d))
    then atomicInput d else next d.
Proof. unfold processInput. simpl. by rewrite isValidChange_reversal. Qed.

Lemma getNextPosition_moves d pos :
  current d ≠ NONE → getNextPosition d pos ≠ pos.
Proof.
  unfold getNextPosition. destruct pos as [r c].
  destruct (current d); intros Hne [=]; (lia || done).
Qed.

End DirectionFacts.

(** C5. [processInput] empties the mailbox; the heading becomes the value
    taken from the mailbox when that value is not [NONE] and is not the
    reversal of the current heading, and is unchanged otherwise.  With the
    heading [RIGHT], [setInput(LEFT)] followed by [processInput] leaves the
    heading at [RIGHT]. *)
Theorem processInput_takes_valid_input (d : DirectionController.t) :
  dc_reachable d →
  let taken := DirectionController.atomicInput d in
  let heading := DirectionController.current d in
  let d' := DirectionController.processInput d in
  DirectionController.atomicInput d' = NONE
  ∧ (taken ≠ NONE → reversal heading taken = false →
     DirectionController.current d' = taken)
  ∧ (taken = NONE ∨ reversal heading taken = true →
     DirectionController.current d' = heading)
  ∧ (heading = RIGHT →
     DirectionController.current
       (DirectionController.processInput (DirectionController.setInput LEFT d))
     = RIGHT).
Proof.
  intros Hd taken heading d'. pose proof (dc_reachable_next d Hd) as Hnext.
  subst d'. rewrite processInput_current. fold taken heading.
  split; [done|]. split; [|split].
  - intros Hne Hrev. rewrite Hrev, bool_decide_eq_false_2 by done. done.
  - intros [Hnone | Hrev].
    + by rewrite Hnone.
    + by rewrite Hrev, andb_false_r.
  - intros Hright. rewrite processInput_current. simpl.
    fold heading in Hnext |- *. rewrite Hright in Hnext |- *. done.
Qed.

Lemma processInput_takes_valid_input_witness :
  let d := DirectionController.setInput UP
             (DirectionController.initialize RIGHT DirectionController.new) in
  DirectionController.current (DirectionController.processInput d) = UP.
Proof.
  intros d.
  assert (Hd : dc_reachable d) by apply dc_setInput, dc_initialize, dc_new.
  destruct (processInput_takes_valid_input d Hd) as (_ & Hvalid & _).
  apply Hvalid; [discriminate | reflexivity].
Defined.

(** ** The shape of a tick *)

Section TickFacts.
Import SnakeGameLogic.

(** [update] on a running game whose snake has a head. *)
Lemma update_unfold draw g h :
  gameOver g = false →
  Snake.getHead (snake g) = Some h →
  let g1 := afterInput g in
  let newHead := DirectionController.getNextPosition (directionController g1) h in
  update draw g =
    if CollisionDetector.isOutOfBounds newHead (board g)
       || CollisionDetector.isWall newHead (board g)
       || Snake.checkSelfCollision (snake g) newHead
    then Done (endGame g1)
    else if boardFull (advance draw newHead g1)
         then Done (endGame (advance draw newHead g1))
         else Done (true, publish (advance draw newHead g1)).
Proof.
  intros Hrun Hhead g1 newHead. unfold update. rewrite Hrun.
  change (snake (afterInput g)) with (snake g). rewrite Hhead.
  change (board (afterInput g)) with (board g). fold g1 newHead.
  destruct (CollisionDetector.isOutOfBounds newHead (board g)); [done|].
  destruct (CollisionDetector.isWall newHead (board g)); [done|].
  destruct (Snake.checkSelfCollision (snake g) newHead); done.
Qed.

Lemma eat_publisher p g : statePublisher (eat p g) = statePublisher g.
Proof.
  unfold eat. destruct (CollisionDetector.isFood p (foodManager g)); [|done].
  by destruct (FoodManager.remove (foodManager g) (board g)).
Qed.

Lemma moveSnake_publisher p g : statePublisher (moveSnake p g) = statePublisher g.
Proof. unfold moveSnake. by destruct (Snake.move p (snake g) (board g)). Qed.

Lemma refillFood_publisher draw g : statePublisher (refillFood draw g) = statePublisher g.
Proof.
  unfold refillFood. destruct (negb (FoodManager.isPresent (foodManager g))); [|done].
  by destruct (FoodManager.placeRandom draw (foodManager g) (board g)).
Qed.

Lemma advance_publisher draw p g : statePublisher (advance draw p g) = statePublisher g.
Proof.
  unfold advance. by rewrite refillFood_publisher, moveSnake_publisher, eat_publisher.
Qed.

(** A publish makes its snapshot the visible one and records it. *)
Lemma publish_current g : current (publish g) = snapshotOf g.
Proof.
  unfold current, getGameState, StatePublisher.getState, publish. simpl.
  unfold StatePublisher.deref. simpl.
  by destruct (StatePublisher.writeBuffer (statePublisher g)).
Qed.

Lemma publish_published g : published (publish g) = snapshotOf g :: published g.
Proof. done. Qed.

Lemma endGame_spec g :
  ∃ g', endGame g = (false, g')
        ∧ gameOver g' = true
        ∧ gs_gameOver (current g') = true
        ∧ published g' = current g' :: published g
        ∧ board g' = board g ∧ snake g' = snake g
        ∧ foodManager g' = foodManager g ∧ score g' = score g
        ∧ directionController g' = directionController g.
Proof.
  eexists. split; [reflexivity|]. rewrite publish_current, publish_published.
  repeat split.
Qed.

(** A call of [update] that returns leaves the record of publishes as it
    is or adds one snapshot, the one of the new state. *)
Lemma update_publishes_history draw g continues g' :
  update draw g = Done (continues, g') →
  published g' = published g ∨ published g' = snapshotOf g' :: published g.
Proof.
  unfold update. destruct (gameOver g); [intros [= _ <-]; by left|].
  change (snake (afterInput g)) with (snake g).
  destruct (Snake.getHead (snake g)) as [h|]; [|done].
  set (g1 := afterInput g).
  set (newHead := DirectionController.getNextPosition _ h).
  change (refillFood draw (moveSnake newHead (eat newHead g1)))
    with (advance draw newHead g1).
  pose proof (advance_publisher draw newHead g1) as Hadv.
  repeat (match goal with |- context [if ?c then _ else _] => destruct c end);
    intros [= _ <-]; right; unfold published; simpl; by rewrite ?Hadv.
Qed.

End TickFacts.

(** C7. On a state whose terminal flag is set, [update] returns [false] and
    changes nothing: board, snake, food, score, heading, mailbox and
    publisher (current snapshot and the record of publishes) are the
    same. *)
Theorem update_terminal_noop (draw : nat) (g : SnakeGameLogic.t) :
  SnakeGameLogic.gameOver g = true →
  SnakeGameLogic.update draw g = Done (false, g).
Proof. intros Hover. unfold SnakeGameLogic.update. by rewrite Hover. Qed.

Lemma update_terminal_noop_witness :
  reachable 1 1 1 10 RIGHT edgeHit
  ∧ SnakeGameLogic.update 0 edgeHit = Done (false, edgeHit).
Proof.
  split.
  - eapply (reach_update _ _ _ _ _ 0%nat (started 1 1 1 10 RIGHT 0) false).
    + by apply (reach_init _ _ _ _ _ 0%nat).
    + by vm_compute.
  - apply (update_terminal_noop 0 edgeHit). reflexivity.
Defined.

(** C10. On a running game with at least two segments, when the candidate
    head position is the position of the tail segment, [checkSelfCollision]
    answers [true] for it (it answers [false] for the position of the head
    when no other segment is there), and [update] returns [false], sets the
    terminal flag and publishes one snapshot, which is terminal; snake and
    score are unchanged. *)
Theorem update_tail_collision (draw : nat) (g : SnakeGameLogic.t)
    (h : Position) (rest : list Position) :
  SnakeGameLogic.gameOver g = false →
  Snake.body (SnakeGameLogic.snake g) = h :: rest →
  rest ≠ [] →
  SnakeGameLogic.candidate g = Some (List.last rest h) →
  Snake.checkSelfCollision (SnakeGameLogic.snake g) (List.last rest h) = true
  ∧ (h ∉ rest → Snake.checkSelfCollision (SnakeGameLogic.snake g) h = false)
  ∧ ∃ g', SnakeGameLogic.update draw g = Done (false, g')
          ∧ SnakeGameLogic.gameOver g' = true
          ∧ gs_gameOver (SnakeGameLogic.current g') = true
          ∧ published g' = SnakeGameLogic.current g' :: published g
          ∧ SnakeGameLogic.snake g' = SnakeGameLogic.snake g
          ∧ SnakeGameLogic.score g' = SnakeGameLogic.score g.
Proof.
  intros Hrun Hbody Hrest Hcand.
  assert (Hhead : Snake.getHead (SnakeGameLogic.snake g) = Some h).
  { unfold Snake.getHead. by rewrite Hbody. }
  assert (Hhit : Snake.checkSelfCollision (SnakeGameLogic.snake g) (List.last rest h) = true).
  { unfold Snake.checkSelfCollision. rewrite Hbody. simpl. rewrite drop_0.
    apply bool_decide_eq_true_2, list_elem_of_In.
    destruct (exists_last Hrest) as (front & x & ->).
    rewrite last_last. apply in_or_app. right. by left. }
  split; [done|]. split.
  { intros Hh. unfold Snake.checkSelfCollision. rewrite Hbody. simpl.
    rewrite drop_0. by apply bool_decide_eq_false. }
  unfold SnakeGameLogic.candidate in Hcand. rewrite Hhead in Hcand.
  injection Hcand as Hcand.
  rewrite (update_unfold draw g h Hrun Hhead). simpl.
  rewrite Hcand, Hhit, !orb_true_r.
  destruct (endGame_spec (SnakeGameLogic.afterInput g))
    as (g' & -> & Hover & Hsnap & Hpub & _ & Hsnake & _ & Hscore & _).
  exists g'. repeat split; done.
Qed.

Lemma update_tail_collision_witness :
  Snake.body (SnakeGameLogic.snake tailChase) = [(0, 2); (0, 3); (1, 3); (1, 2)]
  ∧ SnakeGameLogic.candidate tailChase = Some (1, 2)
  ∧ ∃ g', SnakeGameLogic.update 0 tailChase = Done (false, g')
          ∧ SnakeGameLogic.gameOver g' = true.
Proof.
  split; [reflexivity|]. split; [reflexivity|].
  destruct (update_tail_collision 0 tailChase (0, 2) [(0, 3); (1, 3); (1, 2)])
    as (_ & _ & g' & Hupd & Hover & _); [reflexivity | reflexivity | discriminate | reflexivity |].
  exists g'. by split.
Defined.

(** C6. On a running game, when the tick passes the three collision checks
    and, after the food branch and the move, no food is present, the board
    has no empty cell and the snake has no pending growth, [update] sets
    the terminal flag, publishes one snapshot, which is terminal, and
    returns [false]. *)
Theorem update_board_full_wins (draw : nat) (g : SnakeGameLogic.t) (h : Position) :
  SnakeGameLogic.gameOver g = false →
  Snake.getHead (SnakeGameLogic.snake g) = Some h →
  let g1 := SnakeGameLogic.afterInput g in
  let newHead :=
    DirectionController.getNextPosition (SnakeGameLogic.directionController g1) h in
  CollisionDetector.isOutOfBounds newHead (SnakeGameLogic.board g) = false →
  CollisionDetector.isWall newHead (SnakeGameLogic.board g) = false →
  Snake.checkSelfCollision (SnakeGameLogic.snake g) newHead = false →
  let g3 := SnakeGameLogic.moveSnake newHead (SnakeGameLogic.eat newHead g1) in
  FoodManager.isPresent (SnakeGameLogic.foodManager g3) = false →
  Board.getEmptyCells (SnakeGameLogic.board g3) = [] →
  Snake.hasPendingGrowth (SnakeGameLogic.snake g3) = false →
  ∃ g', SnakeGameLogic.update draw g = Done (false, g')
        ∧ SnakeGameLogic.gameOver g' = true
        ∧ gs_gameOver (SnakeGameLogic.current g') = true
        ∧ published g' = SnakeGameLogic.current g' :: published g.
Proof.
  intros Hrun Hhead g1 newHead Hout Hwall Hself g3 Hfood Hempty Hgrow.
  rewrite (update_unfold draw g h Hrun Hhead). fold g1 newHead.
  rewrite Hout, Hwall, Hself. simpl.
  assert (Hadv : advance draw newHead g1 =
                 SnakeGameLogic.mk (SnakeGameLogic.board g3) (SnakeGameLogic.snake g3)
                   (FoodManager.mk (FoodManager.position (SnakeGameLogic.foodManager g3)) false)
                   (SnakeGameLogic.directionController g3)
                   (SnakeGameLogic.statePublisher g3)
                   (SnakeGameLogic.score g3) (SnakeGameLogic.pointsPerFood g3)
                   (SnakeGameLogic.gameOver g3)).
  { unfold advance. fold g3. unfold SnakeGameLogic.refillFood.
    rewrite Hfood. simpl. unfold FoodManager.placeRandom. by rewrite Hempty. }
  rewrite Hadv. unfold boardFull. simpl. rewrite Hgrow. simpl.
  match goal with |- context [SnakeGameLogic.endGame ?x] =>
    destruct (endGame_spec x) as (g' & -> & Hover & Hsnap & Hpub & _) end.
  exists g'. repeat split; try done.
  rewrite Hpub. unfold published. simpl. subst g3.
  by rewrite moveSnake_publisher, eat_publisher.
Qed.

Lemma update_board_full_wins_witness :
  reachable 1 2 1 10 LEFT lastCell
  ∧ ∃ g', SnakeGameLogic.update 0 lastCell = Done (false, g')
          ∧ SnakeGameLogic.gameOver g' = true.
Proof.
  split; [by apply (reach_init _ _ _ _ _ 0%nat)|].
  destruct (update_board_full_wins 0 lastCell (0, 1))
    as (g' & Hupd & Hover & _); try reflexivity.
  exists g'. by split.
Defined.

(** C8, amended.  A call of [update] on a running game whose snake has a
    segment performs exactly one publish, whichever way the tick ends, and
    the snapshot it publishes is the visible one afterwards; a call on a
    terminal game performs none. *)
Theorem update_publishes_once_when_running (draw : nat) (g : SnakeGameLogic.t) :
  Snake.body (SnakeGameLogic.snake g) ≠ [] →
  ∃ continues g',
    SnakeGameLogic.update draw g = Done (continues, g')
    ∧ published g' =
        if SnakeGameLogic.gameOver g then published g
        else SnakeGameLogic.current g' :: published g.
Proof.
  intros Hbody. destruct (SnakeGameLogic.gameOver g) eqn:Hrun.
  { exists false, g. split; [|done]. unfold SnakeGameLogic.update. by rewrite Hrun. }
  destruct (Snake.body (SnakeGameLogic.snake g)) as [|h rest] eqn:Hb; [done|].
  assert (Hhead : Snake.getHead (SnakeGameLogic.snake g) = Some h).
  { unfold Snake.getHead. by rewrite Hb. }
  rewrite (update_unfold draw g h Hrun Hhead).
  set (g1 := SnakeGameLogic.afterInput g).
  set (newHead := DirectionController.getNextPosition _ h).
  destruct (_ || _ || _).
  - destruct (endGame_spec g1) as (g' & -> & _ & _ & Hpub & _). by exists false, g'.
  - destruct (boardFull (advance draw newHead g1)).
    + destruct (endGame_spec (advance draw newHead g1)) as (g' & -> & _ & _ & Hpub & _).
      exists false, g'. split; [done|]. rewrite Hpub. unfold published.
      by rewrite advance_publisher.
    + eexists true, _. split; [done|].
      rewrite publish_current, publish_published. unfold published.
      by rewrite advance_publisher.
Qed.

Lemma update_publishes_once_when_running_witness :
  ∃ continues g',
    SnakeGameLogic.update 0 lastCell = Done (continues, g')
    ∧ published g' = SnakeGameLogic.current g' :: published lastCell.
Proof. apply (update_publishes_once_when_running 0 lastCell). discriminate. Defined.

(** C8 as stated fails: the call of [update] on the terminal state
    [edgeHit], reached after one tick on a one-cell board, publishes
    nothing. *)
Lemma update_publishes_nothing_when_terminal :
  reachable 1 1 1 10 RIGHT edgeHit
  ∧ ∃ g', SnakeGameLogic.update 0 edgeHit = Done (false, g')
          ∧ published g' = published edgeHit.
Proof.
  split.
  - eapply (reach_update _ _ _ _ _ 0%nat (started 1 1 1 10 RIGHT 0) false).
    + by apply (reach_init _ _ _ _ _ 0%nat).
    + by vm_compute.
  - by exists edgeHit.
Qed.

(** ** The publication protocol *)

Section PublisherFacts.
Import StatePublisher.

(** The constructor publishes the very buffer that the first [publish]
    writes. *)
Lemma new_publishes_write_buffer : currentState new = writeBuffer new.
Proof. reflexivity. Qed.

(** What a reader sees right after a publish. *)
Lemma publish_deref board snake food score over p :
  deref (publish board snake food score over p)
        (getState (publish board snake food score over p))
  = snapshot board snake food score over.
Proof. unfold getState, deref, publish. simpl. by destruct (writeBuffer p). Qed.

(** The next publish goes to the other buffer when the two buffer
    pointers differ: a held snapshot survives one publish. *)
Lemma held_snapshot_survives_one_publish b1 s1 f1 n1 o1 b2 s2 f2 n2 o2 p :
  writeBuffer p ≠ readBuffer p →
  let p1 := publish b1 s1 f1 n1 o1 p in
  deref (publish b2 s2 f2 n2 o2 p1) (getState p1) = snapshot b1 s1 f1 n1 o1.
Proof.
  intros Hne. unfold getState, deref, publish. simpl.
  destruct (writeBuffer p), (readBuffer p); done.
Qed.

(** The publish after that one writes the held object again: whatever
    the publisher state, the reader of snapshot 1 reads the values of
    publish 3 through its pointer. *)
Lemma held_snapshot_overwritten b1 s1 f1 n1 o1 b2 s2 f2 n2 o2 b3 s3 f3 n3 o3 p :
  let p1 := publish b1 s1 f1 n1 o1 p in
  let p3 := publish b3 s3 f3 n3 o3 (publish b2 s2 f2 n2 o2 p1) in
  deref p3 (getState p1) = snapshot b3 s3 f3 n3 o3.
Proof.
  unfold getState, deref, publish. simpl.
  destruct (writeBuffer p), (readBuffer p); done.
Qed.

End PublisherFacts.

(** C1 fails on the code.  A reader takes the snapshot published by
    [initializeBoard] and keeps the pointer.  It reads the snake
    (5,5),(5,4),(5,3); after two calls of [update] the same pointer reads
    the snake (5,7),(5,6),(5,5): the second call wrote the object the
    reader holds. *)
Theorem held_snapshot_changes_after_two_ticks :
  let held := SnakeGameLogic.getGameState opening in
  reachable 10 10 3 10 RIGHT opening
  ∧ reachable 10 10 3 10 RIGHT twoTicksLater
  ∧ gs_snake (StatePublisher.deref (SnakeGameLogic.statePublisher opening) held)
    = [(5, 5); (5, 4); (5, 3)]
  ∧ gs_snake (StatePublisher.deref (SnakeGameLogic.statePublisher twoTicksLater) held)
    = [(5, 7); (5, 6); (5, 5)].
Proof.
  intros held.
  assert (Hopen : reachable 10 10 3 10 RIGHT opening).
  { apply (reach_init _ _ _ _ _ 0%nat). by vm_compute. }
  split; [done|]. split; [|split; reflexivity].
  eapply (reach_update _ _ _ _ _ 0%nat _ true).
  - eapply (reach_update _ _ _ _ _ 0%nat _ true); [exact Hopen|]. vm_compute. reflexivity.
  - vm_compute. reflexivity.
Qed.

(** ** Laying out the snake *)

Section SnakeFacts.
Implicit Types (b : Board.t) (p q : Position) (ps body : list Position).

Lemma layStep_foldl startPos dir (js : list Z) (s : Snake.t) b :
  foldl (Snake.layStep startPos dir) (s, b) js
  = ({| Snake.body := Snake.body s ++ (Snake.segment startPos dir <$> js);
        Snake.growthPending := Snake.growthPending s |},
     markSnake b (Snake.segment startPos dir <$> js)).
Proof.
  revert s b. induction js as [|i js IH]; intros s b.
  - simpl. rewrite app_nil_r. by destruct s.
  - rewrite fmap_cons.
    change (foldl (Snake.layStep startPos dir) (s, b) (i :: js))
      with (foldl (Snake.layStep startPos dir) (Snake.layStep startPos dir (s, b) i) js).
    unfold Snake.layStep at 2.
    destruct (Snake.segment startPos dir i) as [r c] eqn:Hseg.
    rewrite IH. simpl. by rewrite <-app_assoc.
Qed.

(** [Snake::initialize] in closed form. *)
Lemma initialize_layout startPos len dir b :
  Snake.initialize startPos len dir b
  = ({| Snake.body := layout startPos len dir; Snake.growthPending := 0 |},
     markSnake b (layout startPos len dir)).
Proof. unfold Snake.initialize. by rewrite layStep_foldl. Qed.

Lemma length_layout startPos len dir :
  length (layout startPos len dir) = Z.to_nat len.
Proof. unfold layout. by rewrite length_fmap, length_seqZ. Qed.

Lemma NoDup_layout startPos len dir :
  dir ≠ NONE → NoDup (layout startPos len dir).
Proof.
  intros Hdir. unfold layout. apply NoDup_fmap_2_strong; [|apply NoDup_seqZ].
  intros i j _ _. unfold Snake.segment. destruct startPos as [r c].
  destruct dir; intros [=]; (lia || done).
Qed.

Lemma markSnake_wf b ps : wf_board b → wf_board (markSnake b ps).
Proof.
  revert b. induction ps as [|p ps IH]; intros b Hwf; [done|].
  apply IH, setCell_wf, Hwf.
Qed.

Lemma markSnake_dims b ps :
  Board.rows (markSnake b ps) = Board.rows b
  ∧ Board.cols (markSnake b ps) = Board.cols b.
Proof.
  revert b. induction ps as [|p ps IH]; intros b; [done|].
  change (markSnake b (p :: ps)) with (markSnake (setCell b p SNAKE) ps).
  destruct (IH (setCell b p SNAKE)) as [-> ->].
  by rewrite setCell_rows, setCell_cols.
Qed.

Lemma inB_markSnake b ps q : inB (markSnake b ps) q ↔ inB b q.
Proof.
  revert b. induction ps as [|p ps IH]; intros b; [done|].
  simpl. unfold markSnake in IH. by rewrite IH, inB_setCell.
Qed.

Lemma cellAt_markSnake b ps q :
  wf_board b → inB b q →
  cellAt (markSnake b ps) q = if decide (q ∈ ps) then SNAKE else cellAt b q.
Proof.
  revert b. induction ps as [|p ps IH]; intros b Hwf Hq.
  - rewrite decide_False; [done | apply not_elem_of_nil].
  - change (markSnake b (p :: ps)) with (markSnake (setCell b p SNAKE) ps).
    rewrite IH; [|by apply setCell_wf | by apply inB_setCell].
    destruct (decide (q ∈ ps)) as [Hin|Hnin].
    + rewrite decide_True; [done | by right].
    + destruct (decide (q = p)) as [->|Hne].
      * rewrite cellAt_setCell_eq by done. rewrite decide_True; [done | by left].
      * rewrite cellAt_setCell_ne by done. rewrite decide_False; [done|].
        rewrite elem_of_cons. tauto.
Qed.

(** The last segment and the rest of a deque. *)
Lemma removelast_snoc {A} (l : list A) (x y : A) :
  removelast (x :: l ++ [y]) = x :: l ∧ List.last (x :: l ++ [y]) x = y.
Proof.
  change (x :: l ++ [y]) with ((x :: l) ++ [y]).
  by rewrite removelast_last, last_last.
Qed.

End SnakeFacts.

(** ** Food placement and removal *)

Section FoodFacts.
Implicit Types (b : Board.t) (f : FoodManager.t) (body : list Position).

Lemma placeRandom_cases draw f b :
  (Board.getEmptyCells b = []
   ∧ FoodManager.placeRandom draw f b
     = ({| FoodManager.position := FoodManager.position f;
           FoodManager.exists_ := false |}, b))
  ∨ (∃ p, p ∈ Board.getEmptyCells b
          ∧ FoodManager.placeRandom draw f b
            = ({| FoodManager.position := p; FoodManager.exists_ := true |},
               setCell b p FOOD)).
Proof.
  unfold FoodManager.placeRandom.
  destruct (Board.getEmptyCells b) as [|e es] eqn:Hcells; [by left|].
  right. eexists. split; [|reflexivity].
  apply list_elem_of_lookup_total_2, Nat.mod_upper_bound. done.
Qed.

Lemma placeRandom_dims draw f b f' b' :
  FoodManager.placeRandom draw f b = (f', b') →
  Board.rows b' = Board.rows b ∧ Board.cols b' = Board.cols b.
Proof.
  intros Hplace.
  destruct (placeRandom_cases draw f b) as [[_ Heq]|(p & _ & Heq)];
    rewrite Heq in Hplace; injection Hplace as <- <-; [done|].
  by rewrite setCell_rows, setCell_cols.
Qed.

Lemma placeRandom_marked draw f b body f' b' :
  wf_board b → snakeMarked b body →
  FoodManager.placeRandom draw f b = (f', b') →
  wf_board b' ∧ snakeMarked b' body ∧ foodMarked b' f'
  ∧ (∀ q, inB b' q ↔ inB b q).
Proof.
  intros Hwf Hcells Hplace.
  destruct (placeRandom_cases draw f b) as [[_ Heq]|(p & Hp & Heq)];
    rewrite Heq in Hplace; injection Hplace as <- <-.
  - split; [done|]. split; [done|]. split; [|done].
    intros Hex. simpl in Hex. discriminate.
  - apply elem_of_getEmptyCells in Hp as [Hp Hempty].
    split; [by apply setCell_wf|]. split; [|split].
    + intros q Hq. apply inB_setCell in Hq.
      destruct (decide (q = p)) as [->|Hne].
      * rewrite cellAt_setCell_eq by done. split; [done|].
        intros Hin. apply Hcells in Hin; [congruence | done].
      * rewrite cellAt_setCell_ne by done. by apply Hcells.
    + intros _. simpl. split; [by apply inB_setCell|].
      by rewrite cellAt_setCell_eq.
    + intros q. apply inB_setCell.
Qed.

Lemma remove_marked f b body f' b' :
  wf_board b → snakeMarked b body → foodMarked b f →
  FoodManager.remove f b = (f', b') →
  wf_board b' ∧ snakeMarked b' body ∧ FoodManager.exists_ f' = false
  ∧ (∀ q, inB b' q ↔ inB b q).
Proof.
  intros Hwf Hcells Hfood. unfold FoodManager.remove.
  destruct (FoodManager.exists_ f) eqn:Hex; intros [= <- <-]; [|done].
  destruct (Hfood Hex) as [Hin Htag].
  fold (setCell b (FoodManager.position f) EMPTY).
  split; [by apply setCell_wf|]. split; [|split; [done|]].
  - intros q Hq. apply inB_setCell in Hq.
    destruct (decide (q = FoodManager.position f)) as [->|Hne].
    + rewrite cellAt_setCell_eq by done. split; [done|].
      intros Hbody. apply Hcells in Hbody; [congruence | done].
    + rewrite cellAt_setCell_ne by done. by apply Hcells.
  - intros q. apply inB_setCell.
Qed.

End FoodFacts.

(** ** The stages of a tick *)

Section MoveFacts.
Implicit Types (b : Board.t) (p q newHead tail : Position)
               (front body : list Position).

Lemma move_grow newHead (s : Snake.t) b :
  0 < Snake.growthPending s →
  Snake.move newHead s b
  = ({| Snake.body := newHead :: Snake.body s;
        Snake.growthPending := Snake.growthPending s - 1 |},
     setCell b newHead SNAKE).
Proof.
  intros Hgrow. unfold Snake.move.
  by destruct (Z.ltb_spec 0 (Snake.growthPending s)); [|lia].
Qed.

Lemma move_shift newHead (s : Snake.t) b front tail :
  Snake.growthPending s ≤ 0 →
  Snake.body s = front ++ [tail] →
  Snake.move newHead s b
  = ({| Snake.body := newHead :: front;
        Snake.growthPending := Snake.growthPending s |},
     setCell (setCell b newHead SNAKE) tail EMPTY).
Proof.
  intros Hgrow Hbody. unfold Snake.move.
  destruct (Z.ltb_spec 0 (Snake.growthPending s)); [lia|].
  rewrite Hbody. by destruct (removelast_snoc front newHead tail) as [-> ->].
Qed.

Lemma grow_marked b body newHead :
  wf_board b → snakeMarked b body → inB b newHead →
  snakeMarked (setCell b newHead SNAKE) (newHead :: body).
Proof.
  intros Hwf Hcells Hnew q Hq. apply inB_setCell in Hq. rewrite elem_of_cons.
  destruct (decide (q = newHead)) as [->|Hne].
  - rewrite cellAt_setCell_eq by done. tauto.
  - rewrite cellAt_setCell_ne by done. rewrite (Hcells q Hq). tauto.
Qed.

Lemma shift_marked b front tail newHead :
  wf_board b → snakeMarked b (front ++ [tail]) →
  NoDup (newHead :: front ++ [tail]) → inB b newHead →
  snakeMarked (setCell (setCell b newHead SNAKE) tail EMPTY) (newHead :: front).
Proof.
  intros Hwf Hcells Hnd Hnew q Hq. apply inB_setCell, inB_setCell in Hq.
  apply list.NoDup_cons in Hnd as [Hfresh Hnd].
  apply list.NoDup_app in Hnd as (_ & Hsep & _).
  assert (Hwf1 : wf_board (setCell b newHead SNAKE)) by by apply setCell_wf.
  assert (Hq1 : inB (setCell b newHead SNAKE) q) by by apply inB_setCell.
  rewrite elem_of_cons. destruct (decide (q = tail)) as [->|Hnt].
  - rewrite cellAt_setCell_eq by done. split; [done|]. intros [->|Hin].
    + exfalso. apply Hfresh, elem_of_app. right. by left.
    + exfalso. apply (Hsep tail Hin). by left.
  - rewrite cellAt_setCell_ne by done.
    destruct (decide (q = newHead)) as [->|Hnh].
    + rewrite cellAt_setCell_eq by done. tauto.
    + rewrite cellAt_setCell_ne by done. rewrite (Hcells q Hq), elem_of_app.
      rewrite list_elem_of_singleton. tauto.
Qed.

Lemma setCell_foodMarked b (f : FoodManager.t) p tag :
  wf_board b → foodMarked b f →
  (FoodManager.exists_ f = true → FoodManager.position f ≠ p) →
  foodMarked (setCell b p tag) f.
Proof.
  intros Hwf Hfood Hne Hex. destruct (Hfood Hex) as [Hin Htag].
  split; [by apply inB_setCell|]. rewrite cellAt_setCell_ne; auto.
Qed.

End MoveFacts.

Section StageFacts.
Import SnakeGameLogic.

Lemma isFood_true p (f : FoodManager.t) :
  CollisionDetector.isFood p f = true
  ↔ FoodManager.exists_ f = true ∧ p = FoodManager.position f.
Proof.
  unfold CollisionDetector.isFood, FoodManager.isPresent, FoodManager.getPosition.
  by rewrite andb_true_iff, bool_decide_eq_true.
Qed.

(** The food branch. *)
Lemma eat_spec p g :
  marked g →
  let g2 := eat p g in
  let hit := CollisionDetector.isFood p (foodManager g) in
  marked g2 ∧ sameFrame g g2
  ∧ Snake.body (snake g2) = Snake.body (snake g)
  ∧ (FoodManager.exists_ (foodManager g2) = true →
     FoodManager.position (foodManager g2) ≠ p)
  ∧ Snake.growthPending (snake g2)
    = (if hit then Snake.growthPending (snake g) + 1 else Snake.growthPending (snake g))
  ∧ score g2 = (if hit then wrapInt (score g + pointsPerFood g) else score g).
Proof.
  intros (Hwf & Hcells & Hfood) g2 hit. subst g2 hit. unfold eat, marked, sameFrame.
  destruct (CollisionDetector.isFood p (foodManager g)) eqn:Hhit.
  - destruct (FoodManager.remove (foodManager g) (board g)) as [f' b'] eqn:Hrem.
    destruct (remove_marked _ _ _ _ _ Hwf Hcells Hfood Hrem) as (Hwf' & Hcells' & Hex' & Hin').
    simpl. split_and!; try done.
    + intros Hex. congruence.
    + intros Hex. congruence.
  - split_and!; try done. intros Hex Heq.
    assert (CollisionDetector.isFood p (foodManager g) = true); [|congruence].
    by apply isFood_true.
Qed.

(** The move. *)
Lemma moveSnake_spec p g :
  marked g → NoDup (p :: Snake.body (snake g)) → inB (board g) p →
  Snake.body (snake g) ≠ [] →
  (FoodManager.exists_ (foodManager g) = true →
   FoodManager.position (foodManager g) ≠ p) →
  let g3 := moveSnake p g in
  let growing := 0 <? Snake.growthPending (snake g) in
  marked g3 ∧ sameFrame g g3
  ∧ Snake.body (snake g3)
    = (if growing then p :: Snake.body (snake g)
       else p :: removelast (Snake.body (snake g)))
  ∧ Snake.growthPending (snake g3)
    = (if growing then Snake.growthPending (snake g) - 1
       else Snake.growthPending (snake g))
  ∧ score g3 = score g
  ∧ foodManager g3 = foodManager g.
Proof.
  intros (Hwf & Hcells & Hfood) Hnd Hin Hbody Hfresh g3 growing.
  subst g3 growing. unfold moveSnake, marked, sameFrame.
  destruct (Z.ltb_spec 0 (Snake.growthPending (snake g))) as [Hgrow|Hgrow].
  - rewrite move_grow by done. simpl. split_and!; try done.
    + by apply setCell_wf.
    + by apply grow_marked.
    + by apply setCell_foodMarked.
    + intros q. apply inB_setCell.
  - destruct (exists_last Hbody) as (front & tail & Hsplit).
    rewrite (move_shift p _ _ front tail) by done. simpl.
    rewrite Hsplit, removelast_last. rewrite Hsplit in Hcells, Hnd.
    split_and!; try done.
    + by apply setCell_wf, setCell_wf.
    + by apply shift_marked.
    + apply setCell_foodMarked; [by apply setCell_wf | |].
      * by apply setCell_foodMarked.
      * intros Hex Heq. destruct (Hfood Hex) as [Hfin Htag].
        assert (cellAt (board g) (FoodManager.position (foodManager g)) = SNAKE);
          [|congruence].
        apply Hcells; [done|]. rewrite Heq. apply elem_of_app. right. by left.
    + intros q. by rewrite !inB_setCell.
Qed.

(** The placement of new food. *)
Lemma refillFood_spec draw g :
  marked g →
  let g4 := refillFood draw g in
  marked g4 ∧ sameFrame g g4
  ∧ snake g4 = snake g
  ∧ score g4 = score g.
Proof.
  intros (Hwf & Hcells & Hfood) g4. subst g4. unfold refillFood, marked, sameFrame.
  destruct (negb (FoodManager.isPresent (foodManager g))); [|by split_and!].
  destruct (FoodManager.placeRandom draw (foodManager g) (board g)) as [f' b'] eqn:Hplace.
  destruct (placeRandom_marked _ _ _ _ _ _ Hwf Hcells Hplace)
    as (Hwf' & Hcells' & Hfood' & Hin').
  simpl. by split_and!.
Qed.

End StageFacts.

(** ** One tick on a consistent state *)

Section ConsistentFacts.
Import SnakeGameLogic.

Lemma consistent_marked g : consistent g → marked g.
Proof. intros [? ? ? ? ? ? ?]. by split_and!. Qed.

Lemma consistent_publish g : consistent g → consistent (publish g).
Proof. intros [? ? ? ? ? ? ?]. by constructor. Qed.

Lemma consistent_endGame g : consistent g → consistent (endGame g).2.
Proof. intros [? ? ? ? ? ? ?]. by constructor. Qed.

Lemma consistent_setDirection d g : consistent g → consistent (setDirection d g).
Proof. intros [? ? ? ? ? ? ?]. by constructor. Qed.

Lemma processInput_heading (d : DirectionController.t) :
  DirectionController.current d ≠ NONE →
  DirectionController.next d = DirectionController.current d →
  DirectionController.current (DirectionController.processInput d) ≠ NONE
  ∧ DirectionController.next (DirectionController.processInput d)
    = DirectionController.current (DirectionController.processInput d).
Proof.
  intros Hcur Hnext. split; [|done]. rewrite processInput_current.
  destruct (bool_decide_reflect (DirectionController.atomicInput d = NONE)) as [Hin|Hin];
    simpl; [congruence|].
  destruct (negb _); congruence.
Qed.

Lemma consistent_afterInput g : consistent g → consistent (afterInput g).
Proof.
  intros [? ? ? Hcur Hnext ? ?].
  destruct (processInput_heading _ Hcur Hnext). by constructor.
Qed.

Lemma NoDup_removelast {A} (x : A) (l : list A) :
  NoDup (x :: l) → NoDup (x :: removelast l).
Proof.
  destruct l as [|y l] using rev_ind; [done|].
  rewrite removelast_last, app_comm_cons. intros Hnd.
  by apply list.NoDup_app in Hnd as (? & _ & _).
Qed.

Lemma elem_of_removelast {A} (x : A) (l : list A) : x ∈ removelast l → x ∈ l.
Proof.
  destruct l as [|y l] using rev_ind; [done|].
  rewrite removelast_last. intros Hin. apply elem_of_app. by left.
Qed.

(** [update] on a consistent running game: it returns, the new state is
    consistent and has published one snapshot, and either the tick ended
    on a collision, with snake, board and score untouched, or the snake
    advanced onto the candidate cell. *)
Lemma update_running draw g h :
  consistent g → gameOver g = false → Snake.getHead (snake g) = Some h →
  let newHead :=
    DirectionController.getNextPosition
      (DirectionController.processInput (directionController g)) h in
  let hit := CollisionDetector.isFood newHead (foodManager g) in
  let collided :=
    CollisionDetector.isOutOfBounds newHead (board g)
    || CollisionDetector.isWall newHead (board g)
    || Snake.checkSelfCollision (snake g) newHead in
  ∃ continues g',
    update draw g = Done (continues, g')
    ∧ consistent g'
    ∧ (∀ q, inB (board g') q ↔ inB (board g) q)
    ∧ pointsPerFood g' = pointsPerFood g
    ∧ published g' = snapshotOf g' :: published g
    ∧ (if collided
       then snake g' = snake g ∧ board g' = board g ∧ score g' = score g
       else inB (board g) newHead
            ∧ Snake.body (snake g')
              = (if hit then newHead :: Snake.body (snake g)
                 else newHead :: removelast (Snake.body (snake g)))
            ∧ score g' = (if hit then wrapInt (score g + pointsPerFood g) else score g)).
Proof.
  intros Hcons Hrun Hhead newHead hit collided.
  rewrite (update_unfold draw g h Hrun Hhead). cbv zeta.
  change (directionController (afterInput g))
    with (DirectionController.processInput (directionController g)).
  fold newHead. subst collided.
  pose proof (consistent_afterInput g Hcons) as Hcons1.
  destruct (_ || _ || _) eqn:Hcol.
  { eexists false, _. split; [reflexivity|].
    split; [by apply consistent_endGame|]. by split_and!. }
  apply orb_false_iff in Hcol as [Hcol Hself].
  apply orb_false_iff in Hcol as [Hout Hwall].
  assert (Hin : inB (board g) newHead).
  { unfold CollisionDetector.isOutOfBounds in Hout. by apply negb_false_iff in Hout. }
  unfold Snake.getHead in Hhead.
  destruct (Snake.body (snake g)) as [|h' rest] eqn:Hbody; [done|].
  injection Hhead as ->.
  assert (Hfresh : newHead ∉ h :: rest).
  { apply not_elem_of_cons. split.
    - apply getNextPosition_moves, Hcons1.
    - unfold Snake.checkSelfCollision in Hself. rewrite Hbody in Hself.
      apply bool_decide_eq_false in Hself. by rewrite skipn_cons, drop_0 in Hself. }
  (* the food branch *)
  destruct (eat_spec newHead (afterInput g) (consistent_marked _ Hcons1))
    as (Hm2 & (Hin2 & Hdc2 & Hppf2) & Hbody2 & Hfood2 & Hgrow2 & Hscore2).
  change (foodManager (afterInput g)) with (foodManager g) in Hgrow2, Hscore2.
  fold hit in Hgrow2, Hscore2.
  change (Snake.growthPending (snake (afterInput g)))
    with (Snake.growthPending (snake g)) in Hgrow2.
  rewrite (cons_growth g Hcons) in Hgrow2.
  change (Snake.body (snake (afterInput g))) with (Snake.body (snake g)) in Hbody2.
  rewrite Hbody in Hbody2.
  set (g2 := eat newHead (afterInput g)) in *.
  (* the move *)
  destruct (moveSnake_spec newHead g2 Hm2)
    as (Hm3 & (Hin3 & Hdc3 & Hppf3) & Hbody3 & Hgrow3 & Hscore3 & Hfood3).
  { rewrite Hbody2. apply list.NoDup_cons. split; [done|].
    rewrite <-Hbody. apply Hcons. }
  { by apply Hin2. }
  { by rewrite Hbody2. }
  { done. }
  set (g3 := moveSnake newHead g2) in *.
  assert (Hgrowing : (0 <? Snake.growthPending (snake g2)) = hit).
  { rewrite Hgrow2. by destruct hit. }
  rewrite Hgrowing in Hbody3, Hgrow3. rewrite Hbody2 in Hbody3.
  assert (Hgrow3' : Snake.growthPending (snake g3) = 0).
  { rewrite Hgrow3, Hgrow2. destruct hit; lia. }
  (* new food *)
  destruct (refillFood_spec draw g3 Hm3)
    as (Hm4 & (Hin4 & Hdc4 & Hppf4) & Hsnake4 & Hscore4).
  assert (Hadv : advance draw newHead (afterInput g) = refillFood draw g3) by done.
  set (g4 := refillFood draw g3) in *.
  assert (Hcons4 : consistent g4).
  { destruct Hm4 as (? & ? & ?). constructor; try done.
    - by rewrite Hsnake4.
    - rewrite Hsnake4, Hbody3. destruct hit.
      + apply list.NoDup_cons. split; [done|]. rewrite <-Hbody. apply Hcons.
      + apply NoDup_removelast, list.NoDup_cons. split; [done|].
        rewrite <-Hbody. apply Hcons.
    - rewrite Hdc4, Hdc3, Hdc2. apply Hcons1.
    - rewrite Hdc4, Hdc3, Hdc2. apply Hcons1. }
  assert (Hframe : ∀ q, inB (board g4) q ↔ inB (board g) q).
  { intros q. rewrite Hin4, Hin3, Hin2. done. }
  assert (Hppf : pointsPerFood g4 = pointsPerFood g).
  { by rewrite Hppf4, Hppf3, Hppf2. }
  assert (Hpub : statePublisher g4 = statePublisher g).
  { rewrite <-Hadv. exact (advance_publisher draw newHead (afterInput g)). }
  assert (Hscore : score g4 = (if hit then wrapInt (score g + pointsPerFood g) else score g)).
  { by rewrite Hscore4, Hscore3, Hscore2. }
  assert (Hbody4 : Snake.body (snake g4)
                   = if hit then newHead :: h :: rest else newHead :: removelast (h :: rest)).
  { by rewrite Hsnake4, Hbody3. }
  rewrite Hadv. destruct (boardFull g4).
  - eexists false, _. split; [reflexivity|].
    split; [by apply consistent_endGame|].
    split_and!; try done. unfold published. simpl. by rewrite Hpub.
  - eexists true, _. split; [reflexivity|].
    split; [by apply consistent_publish|].
    split_and!; try done. unfold published. simpl. by rewrite Hpub.
Qed.

End ConsistentFacts.

(** ** Initialisation *)

Section InitFacts.
Import SnakeGameLogic.

(** [initializeBoard] on non-negative dimensions: it returns, whatever
    the starting length, with the segments of [layout] as the snake and
    the [SNAKE] tags on those of them that are cells of the board. *)
Lemma initializeBoard_spec rows cols len ppf dir draw g0 :
  0 ≤ rows → 0 ≤ cols →
  ∃ g, initializeBoard rows cols len ppf dir draw g0 = Done g
       ∧ marked g
       ∧ Board.rows (board g) = rows ∧ Board.cols (board g) = cols
       ∧ snake g = {| Snake.body := layout (rows `quot` 2, cols `quot` 2) len dir;
                      Snake.growthPending := 0 |}
       ∧ directionController g
         = DirectionController.initialize dir (directionController g0)
       ∧ score g = 0 ∧ pointsPerFood g = ppf ∧ gameOver g = false
       ∧ published g = snapshotOf g :: published g0.
Proof.
  intros Hrows Hcols. unfold initializeBoard.
  rewrite (initialize_done rows cols Hrows Hcols).
  set (b0 := Board.mk _ rows cols).
  assert (Hb0 : Board.initialize rows cols = Done b0) by by apply initialize_done.
  rewrite initialize_layout.
  set (body := layout (rows `quot` 2, cols `quot` 2) len dir).
  assert (Hwf1 : wf_board (markSnake b0 body)).
  { by apply markSnake_wf, (initialize_wf rows cols). }
  assert (Hcells1 : snakeMarked (markSnake b0 body) body).
  { intros p Hp. apply inB_markSnake in Hp.
    rewrite cellAt_markSnake; [|by apply (initialize_wf rows cols) | done].
    destruct (decide (p ∈ body)); [done|].
    rewrite (initialize_empty rows cols b0 p Hb0 Hp). done. }
  destruct (FoodManager.placeRandom draw (foodManager g0) (markSnake b0 body))
    as [f' b'] eqn:Hplace.
  destruct (placeRandom_marked _ _ _ _ _ _ Hwf1 Hcells1 Hplace)
    as (Hwf' & Hcells' & Hfood' & Hin').
  eexists. split; [reflexivity|]. unfold marked. simpl. split_and!; try done.
  - destruct (placeRandom_dims _ _ _ _ _ Hplace) as [-> _].
    by destruct (markSnake_dims b0 body) as [-> _].
  - destruct (placeRandom_dims _ _ _ _ _ Hplace) as [_ ->].
    by destruct (markSnake_dims b0 body) as [_ ->].
Qed.

Lemma initializeBoard_done rows cols len ppf dir draw g0 g :
  initializeBoard rows cols len ppf dir draw g0 = Done g → 0 ≤ rows ∧ 0 ≤ cols.
Proof.
  unfold initializeBoard, Board.initialize.
  destruct (rows <? 0) eqn:E1; [done|]. destruct (cols <? 0) eqn:E2; [done|].
  lia.
Qed.

Lemma initializeBoard_consistent rows cols len ppf dir draw g0 g :
  dir ≠ NONE →
  initializeBoard rows cols len ppf dir draw g0 = Done g →
  consistent g.
Proof.
  intros Hdir Hinit.
  destruct (initializeBoard_done _ _ _ _ _ _ _ _ Hinit) as [Hrows Hcols].
  destruct (initializeBoard_spec rows cols len ppf dir draw g0 Hrows Hcols)
    as (g' & Heq & (Hwf & Hcells & Hfood) & _ & _ & Hsnake & Hdc & _).
  rewrite Hinit in Heq. injection Heq as <-.
  constructor; try done.
  - by rewrite Hsnake.
  - rewrite Hsnake. by apply NoDup_layout.
  - by rewrite Hdc.
  - by rewrite Hdc.
Qed.

End InitFacts.

(** ** Reachable states *)

Section ReachableFacts.
Import SnakeGameLogic.
Context (rows cols startingLength pointsPerFood : Z) (initialDirection : Direction).

Lemma started_reachable draw g :
  started rows cols startingLength pointsPerFood initialDirection draw = g →
  0 ≤ rows → 0 ≤ cols →
  reachable rows cols startingLength pointsPerFood initialDirection g.
Proof.
  intros <- Hrows Hcols. apply (reach_init _ _ _ _ _ draw). unfold started.
  destruct (initializeBoard_spec rows cols startingLength pointsPerFood
              initialDirection draw new Hrows Hcols) as (g & -> & _).
  done.
Qed.

Lemma run_reachable cs g g' :
  reachable rows cols startingLength pointsPerFood initialDirection g →
  run g cs = Done g' →
  reachable rows cols startingLength pointsPerFood initialDirection g'.
Proof.
  revert g. induction cs as [|c cs IH]; intros g Hg; simpl.
  - by intros [= <-].
  - destruct c as [d|draw]; simpl.
    + apply IH. by apply reach_setDirection.
    + destruct (update draw g) as [[continues g1]| |] eqn:Hupd; try done.
      apply IH. by apply (reach_update _ _ _ _ _ draw g continues).
Qed.

(** A call of [update] that returns was made on a terminal game, which it
    leaves as it is, or on a running game whose snake has a head. *)
Lemma update_done draw g continues g' :
  update draw g = Done (continues, g') →
  (gameOver g = true ∧ g' = g)
  ∨ (gameOver g = false ∧ ∃ h, Snake.getHead (snake g) = Some h).
Proof.
  unfold update. destruct (gameOver g); [intros [= _ <-]; by left|].
  intros Hupd. right. split; [done|].
  change (snake (afterInput g)) with (snake g) in Hupd.
  destruct (Snake.getHead (snake g)) as [h|]; [by exists h | done].
Qed.

Lemma reachable_consistent g :
  initialDirection ≠ NONE →
  reachable rows cols startingLength pointsPerFood initialDirection g →
  consistent g.
Proof.
  intros Hdir. induction 1 as [draw g Hinit|d g _ IH|draw g continues g' _ IH Hupd].
  - by apply (initializeBoard_consistent _ _ _ _ _ _ _ _ Hdir Hinit).
  - by apply consistent_setDirection.
  - destruct (update_done _ _ _ _ Hupd) as [[_ ->]|[Hrun [h Hhead]]]; [done|].
    destruct (update_running draw g h IH Hrun Hhead) as (c & g1 & Heq & Hcons & _).
    rewrite Hupd in Heq. by injection Heq as _ <-.
Qed.

(** The snapshot of a consistent state whose snake lies on the board
    shows one [SNAKE] cell per segment. *)
Lemma snapshot_counted g :
  consistent g → onBoard g →
  snakeCellsOf (snapshotOf g) ≡ₚ gs_snake (snapshotOf g)
  ∧ gs_snakeLength (snapshotOf g) = Z.of_nat (length (gs_snake (snapshotOf g))).
Proof.
  intros Hcons Hon. split; [|done].
  apply (snake_cells_permutation (board g)); [apply Hcons | done | apply Hcons].
Qed.

Lemma reachable_counted g :
  initialDirection ≠ NONE →
  fitsBoard rows cols startingLength initialDirection →
  reachable rows cols startingLength pointsPerFood initialDirection g →
  onBoard g ∧ historyCounted g.
Proof.
  intros Hdir Hfits Hreach. pose proof (reachable_consistent g Hdir Hreach) as Hcons.
  induction Hreach as [draw g Hinit|d g Hreach IH|draw g continues g' Hreach IH Hupd].
  - destruct (initializeBoard_done _ _ _ _ _ _ _ _ Hinit) as [Hrows Hcols].
    destruct (initializeBoard_spec rows cols startingLength pointsPerFood
                initialDirection draw new Hrows Hcols)
      as (g' & Heq & _ & Hr & Hc & Hsnake & _ & _ & _ & _ & Hpub).
    rewrite Hinit in Heq. injection Heq as <-.
    assert (Hon : onBoard g).
    { intros p. rewrite Hsnake. simpl. intros Hp.
      apply inB_spec. rewrite Hr, Hc.
      exact (proj1 (list.Forall_forall _ _) Hfits p Hp). }
    split; [done|]. unfold historyCounted. rewrite Hpub.
    constructor; [by apply snapshot_counted | constructor].
  - by apply IH, (reachable_consistent g Hdir).
  - destruct (update_done _ _ _ _ Hupd) as [[_ ->]|[Hrun [h Hhead]]];
      [by apply IH|].
    pose proof (reachable_consistent g Hdir Hreach) as Hcons0.
    destruct (IH Hcons0) as [Hon Hhist].
    destruct (update_running draw g h Hcons0 Hrun Hhead)
      as (c & g1 & Heq & _ & Hframe & _ & Hpub & Hcase).
    rewrite Hupd in Heq. injection Heq as <- <-.
    assert (Hon' : onBoard g').
    { intros p Hp. apply Hframe. destruct (_ || _ || _).
      - destruct Hcase as (Hsnake & _ & _). rewrite Hsnake in Hp. by apply Hon.
      - destruct Hcase as (Hnew & Hbody & _). rewrite Hbody in Hp.
        destruct (CollisionDetector.isFood _ _);
          apply elem_of_cons in Hp as [->|Hp]; try done.
        + by apply Hon.
        + by apply Hon, elem_of_removelast. }
    split; [done|]. unfold historyCounted. rewrite Hpub.
    constructor; [|done]. apply snapshot_counted; [|done].
    by apply (reachable_consistent g' Hdir), (reach_update _ _ _ _ _ draw g continues).
Qed.

End ReachableFacts.

(** C4, amended.  In every state reachable through [initializeBoard] with
    an initial direction other than [NONE], followed by any sequence of
    [setDirection] and [update] calls, no two snake segments occupy the
    same position. *)
Theorem segments_distinct_with_heading (rows cols startingLength pointsPerFood : Z)
    (initialDirection : Direction) (g : SnakeGameLogic.t) :
  initialDirection ≠ NONE →
  reachable rows cols startingLength pointsPerFood initialDirection g →
  NoDup (Snake.body (SnakeGameLogic.snake g)).
Proof. intros Hdir Hreach. by apply (reachable_consistent _ _ _ _ _ g Hdir Hreach). Qed.

Lemma segments_distinct_with_heading_witness :
  NoDup (Snake.body (SnakeGameLogic.snake twoTicksLater)).
Proof.
  apply (segments_distinct_with_heading 10 10 3 10 RIGHT twoTicksLater);
    [discriminate|].
  apply (run_reachable _ _ _ _ _ [Update 0; Update 0] opening).
  - by apply (started_reachable _ _ _ _ _ 0%nat).
  - reflexivity.
Defined.

(** C4 as stated fails: [initializeBoard(10, 10, 3, 10, NONE)] puts the
    three segments on the cell (5,5). *)
Lemma segments_coincide_without_heading :
  reachable 10 10 3 10 NONE stacked
  ∧ Snake.body (SnakeGameLogic.snake stacked) = [(5, 5); (5, 5); (5, 5)]
  ∧ ¬ NoDup (Snake.body (SnakeGameLogic.snake stacked)).
Proof.
  split; [by apply (started_reachable _ _ _ _ _ 0%nat)|]. split; [reflexivity|].
  simpl. intros Hnd. apply list.NoDup_cons in Hnd as [Hfresh _].
  apply Hfresh. by left.
Qed.

(** C3, amended.  When the initial direction is not [NONE] and every
    segment laid out by [initializeBoard] is a cell of the board, every
    snapshot published by [initializeBoard] or [update] has as many cells
    tagged [SNAKE] as the snake has segments: the tagged cells are the
    positions of the segments, each of them once. *)
Theorem snake_cells_count_segments (rows cols startingLength pointsPerFood : Z)
    (initialDirection : Direction) (g : SnakeGameLogic.t) (s : GameState) :
  initialDirection ≠ NONE →
  fitsBoard rows cols startingLength initialDirection →
  reachable rows cols startingLength pointsPerFood initialDirection g →
  s ∈ published g →
  snakeCells s = gs_snakeLength s
  ∧ gs_snakeLength s = Z.of_nat (length (gs_snake s))
  ∧ snakeCellsOf s ≡ₚ gs_snake s.
Proof.
  intros Hdir Hfits Hreach Hs.
  destruct (reachable_counted _ _ _ _ _ g Hdir Hfits Hreach) as [_ Hhist].
  destruct (proj1 (list.Forall_forall _ _) Hhist s Hs) as [Hperm Hlen].
  split_and!; [|done|done]. unfold snakeCells. by rewrite Hperm, Hlen.
Qed.

Lemma snake_cells_count_segments_witness :
  snakeCells (SnakeGameLogic.current twoTicksLater) = 3
  ∧ gs_snakeLength (SnakeGameLogic.current twoTicksLater) = 3.
Proof.
  destruct (snake_cells_count_segments 10 10 3 10 RIGHT twoTicksLater
              (SnakeGameLogic.current twoTicksLater)) as [Hcount Hlen].
  - discriminate.
  - unfold fitsBoard. vm_compute. repeat constructor; discriminate.
  - apply (run_reachable _ _ _ _ _ [Update 0; Update 0] opening).
    + by apply (started_reachable _ _ _ _ _ 0%nat).
    + reflexivity.
  - left.
  - destruct Hlen as [Hlen _]. rewrite Hcount, Hlen. split; reflexivity.
Defined.

(** C3 as stated fails: after [initializeBoard(3, 3, 5, 10, RIGHT)] the
    published snapshot reports five segments and shows two [SNAKE] cells,
    (1,1) and (1,0); the segments (1,-1), (1,-2) and (1,-3) are not cells
    of the board. *)
Lemma snake_cells_fewer_than_segments :
  reachable 3 3 5 10 RIGHT crowded
  ∧ published crowded = [SnakeGameLogic.current crowded]
  ∧ gs_snake (SnakeGameLogic.current crowded)
    = [(1, 1); (1, 0); (1, -1); (1, -2); (1, -3)]
  ∧ gs_snakeLength (SnakeGameLogic.current crowded) = 5
  ∧ snakeCells (SnakeGameLogic.current crowded) = 2.
Proof.
  split; [by apply (started_reachable _ _ _ _ _ 0%nat)|]. by split_and!.
Qed.

(** ** Growth and length, for any initial direction *)

Section LengthFacts.
Import SnakeGameLogic.

Lemma length_removelast_cons {A} (x : A) (l : list A) :
  length (removelast (x :: l)) = length l.
Proof.
  destruct l as [|y l] using rev_ind; [done|].
  rewrite app_comm_cons, removelast_last, length_app. simpl. lia.
Qed.

(** The snake after the food branch, the move and the food placement, when
    no growth was pending before. *)
Lemma advance_snake draw p g :
  Snake.growthPending (snake g) = 0 →
  snake (advance draw p g)
  = {| Snake.body := if CollisionDetector.isFood p (foodManager g)
                     then p :: Snake.body (snake g)
                     else removelast (p :: Snake.body (snake g));
       Snake.growthPending := 0 |}.
Proof.
  intros Hgrow. unfold advance, refillFood.
  assert (Hmove : snake (moveSnake p (eat p g))
                  = {| Snake.body := if CollisionDetector.isFood p (foodManager g)
                                     then p :: Snake.body (snake g)
                                     else removelast (p :: Snake.body (snake g));
                       Snake.growthPending := 0 |}).
  { unfold moveSnake, eat, Snake.move.
    destruct (CollisionDetector.isFood p (foodManager g)).
    - destruct (FoodManager.remove (foodManager g) (board g)) as [f' b'].
      simpl. rewrite Hgrow. done.
    - rewrite Hgrow. done. }
  destruct (negb _); [|done].
  by destruct (FoodManager.placeRandom draw _ _).
Qed.

Lemma advance_pointsPerFood draw p g :
  pointsPerFood (advance draw p g) = pointsPerFood g.
Proof.
  unfold advance, refillFood, moveSnake, eat.
  destruct (CollisionDetector.isFood p (foodManager g)).
  - destruct (FoodManager.remove (foodManager g) (board g)) as [f' b'].
    destruct (Snake.move _ _ _). simpl.
    destruct (negb _); [|done]. by destruct (FoodManager.placeRandom draw _ _).
  - destruct (Snake.move _ _ _). simpl.
    destruct (negb _); [|done]. by destruct (FoodManager.placeRandom draw _ _).
Qed.

(** A tick keeps the points per food, leaves no growth pending when none
    was, and keeps the length of the snake unless the candidate cell holds
    the food. *)
Lemma update_keeps_length draw g h :
  gameOver g = false → Snake.getHead (snake g) = Some h →
  Snake.growthPending (snake g) = 0 →
  let newHead :=
    DirectionController.getNextPosition
      (DirectionController.processInput (directionController g)) h in
  ∃ continues g',
    update draw g = Done (continues, g')
    ∧ pointsPerFood g' = pointsPerFood g
    ∧ Snake.growthPending (snake g') = 0
    ∧ (CollisionDetector.isFood newHead (foodManager g) = false →
       length (Snake.body (snake g')) = length (Snake.body (snake g))).
Proof.
  intros Hrun Hhead Hgrow newHead.
  rewrite (update_unfold draw g h Hrun Hhead). cbv zeta.
  change (directionController (afterInput g))
    with (DirectionController.processInput (directionController g)).
  fold newHead.
  pose proof (advance_snake draw newHead (afterInput g) Hgrow) as Hsnake.
  pose proof (advance_pointsPerFood draw newHead (afterInput g)) as Hppf.
  change (foodManager (afterInput g)) with (foodManager g) in Hsnake.
  change (Snake.body (snake (afterInput g))) with (Snake.body (snake g)) in Hsnake.
  assert (Hlen : CollisionDetector.isFood newHead (foodManager g) = false →
                 length (Snake.body (snake (advance draw newHead (afterInput g))))
                 = length (Snake.body (snake g))).
  { intros Hmiss. rewrite Hsnake, Hmiss. simpl. apply length_removelast_cons. }
  destruct (_ || _ || _).
  - eexists false, _. split; [reflexivity|]. by split_and!.
  - destruct (boardFull _).
    + eexists false, _. split; [reflexivity|].
      split_and!; [exact Hppf | exact (f_equal Snake.growthPending Hsnake) | exact Hlen].
    + eexists true, _. split; [reflexivity|].
      split_and!; [exact Hppf | exact (f_equal Snake.growthPending Hsnake) | exact Hlen].
Qed.

Lemma reachable_settled rows cols len ppf dir g :
  reachable rows cols len ppf dir g →
  pointsPerFood g = ppf ∧ Snake.growthPending (snake g) = 0.
Proof.
  induction 1 as [draw g Hinit|d g _ IH|draw g continues g' _ [IHp IHg] Hupd].
  - destruct (initializeBoard_done _ _ _ _ _ _ _ _ Hinit) as [Hrows Hcols].
    destruct (initializeBoard_spec rows cols len ppf dir draw new Hrows Hcols)
      as (g' & Heq & _ & _ & _ & Hsnake & _ & _ & Hppf & _).
    rewrite Hinit in Heq. injection Heq as <-. by rewrite Hsnake.
  - done.
  - destruct (update_done _ _ _ _ Hupd) as [[_ ->]|[Hrun [h Hhead]]]; [done|].
    destruct (update_keeps_length draw g h Hrun Hhead IHg)
      as (c & g1 & Heq & Hppf & Hgrow & _).
    rewrite Hupd in Heq. injection Heq as _ <-. by rewrite Hppf.
Qed.

End LengthFacts.

(** C2, amended.  In a running game reached from [initializeBoard] with an
    initial direction other than [NONE], when the candidate head position
    is the position of the existing food, one call of [update] adds the
    points per food to the score by an [int] addition, so by exactly the
    points per food when the sum is representable as an [int] (and by the
    sum wrapped into the range of [int] in general), and adds one segment
    to the snake; growth, score and food removal precede the move: the old
    segments all stay behind the new head, and the cell of the new head
    carries [SNAKE], not the [EMPTY] written by the removal.  In a running
    game reached from any [initializeBoard], when the candidate head
    position is not that of an existing food, the call leaves the length
    of the snake unchanged. *)
Theorem food_tick_scores_and_grows (rows cols startingLength pointsPerFood : Z)
    (initialDirection : Direction) (draw : nat) (g : SnakeGameLogic.t) (p : Position) :
  reachable rows cols startingLength pointsPerFood initialDirection g →
  SnakeGameLogic.gameOver g = false →
  SnakeGameLogic.candidate g = Some p →
  (initialDirection ≠ NONE →
   CollisionDetector.isFood p (SnakeGameLogic.foodManager g) = true →
   ∃ continues g',
     SnakeGameLogic.update draw g = Done (continues, g')
     ∧ SnakeGameLogic.score g' = wrapInt (SnakeGameLogic.score g + pointsPerFood)
     ∧ (inInt (SnakeGameLogic.score g + pointsPerFood) →
        SnakeGameLogic.score g' = SnakeGameLogic.score g + pointsPerFood)
     ∧ length (Snake.body (SnakeGameLogic.snake g'))
       = S (length (Snake.body (SnakeGameLogic.snake g)))
     ∧ Snake.body (SnakeGameLogic.snake g') = p :: Snake.body (SnakeGameLogic.snake g)
     ∧ cellAt (SnakeGameLogic.board g') p = SNAKE)
  ∧ (CollisionDetector.isFood p (SnakeGameLogic.foodManager g) = false →
     ∃ continues g',
       SnakeGameLogic.update draw g = Done (continues, g')
       ∧ length (Snake.body (SnakeGameLogic.snake g'))
         = length (Snake.body (SnakeGameLogic.snake g))).
Proof.
  intros Hreach Hrun Hcand.
  destruct (reachable_settled _ _ _ _ _ _ Hreach) as [Hppf Hgrow].
  unfold SnakeGameLogic.candidate in Hcand.
  destruct (Snake.getHead (SnakeGameLogic.snake g)) as [h|] eqn:Hhead; [|done].
  injection Hcand as Hcand. split.
  - intros Hdir Hhit.
    pose proof (reachable_consistent _ _ _ _ _ g Hdir Hreach) as Hcons.
    destruct (update_running draw g h Hcons Hrun Hhead)
      as (c & g' & Hupd & Hcons' & Hframe & _ & _ & Hcase).
    rewrite Hcand in Hcase. rewrite Hhit in Hcase.
    apply isFood_true in Hhit as [Hex Hpos].
    destruct (cons_food g Hcons Hex) as [Hin Htag]. rewrite <-Hpos in Hin, Htag.
    assert (Hout : CollisionDetector.isOutOfBounds p (SnakeGameLogic.board g) = false).
    { unfold CollisionDetector.isOutOfBounds. by rewrite Hin. }
    assert (Hwall : CollisionDetector.isWall p (SnakeGameLogic.board g) = false).
    { unfold CollisionDetector.isWall. apply bool_decide_eq_false.
      rewrite getCellType_in by done. congruence. }
    assert (Hself : Snake.checkSelfCollision (SnakeGameLogic.snake g) p = false).
    { unfold Snake.checkSelfCollision. apply bool_decide_eq_false. intros Hdrop.
      assert (cellAt (SnakeGameLogic.board g) p = SNAKE); [|congruence].
      apply (cons_cells g Hcons p Hin).
      apply list_elem_of_lookup in Hdrop as [i Hi]. rewrite lookup_drop in Hi.
      by apply list_elem_of_lookup_2 in Hi. }
    rewrite Hout, Hwall, Hself in Hcase. simpl in Hcase.
    destruct Hcase as (_ & Hbody & Hscore).
    exists c, g'. split; [done|]. rewrite Hscore, Hppf, Hbody. split_and!; try done.
    + apply wrapInt_small.
    + apply (cons_cells g' Hcons'); [by apply Hframe|]. rewrite Hbody. by left.
  - intros Hmiss.
    destruct (update_keeps_length draw g h Hrun Hhead Hgrow)
      as (c & g' & Hupd & _ & _ & Hlen).
    exists c, g'. split; [done|]. apply Hlen. by rewrite Hcand.
Qed.

Lemma food_tick_scores_and_grows_witness :
  ∃ continues g',
    SnakeGameLogic.update 0 lastCell = Done (continues, g')
    ∧ SnakeGameLogic.score g' = 10
    ∧ Snake.body (SnakeGameLogic.snake g') = [(0, 0); (0, 1)].
Proof.
  destruct (food_tick_scores_and_grows 1 2 1 10 LEFT 0 lastCell (0, 0)) as [Hfood _].
  - by apply (started_reachable _ _ _ _ _ 0%nat).
  - reflexivity.
  - reflexivity.
  - destruct Hfood as (c & g' & Hupd & _ & Hscore & _ & Hbody & _);
      [discriminate | reflexivity |].
    exists c, g'. split_and!; [done | | done].
    apply Hscore. unfold inInt, INT_MIN, INT_MAX. simpl. lia.
Defined.

(** C2 as stated fails.  [foodUnderSnake] is reached from
    [initializeBoard(2, 2, 3, 10, NONE)]: the game is running, the food
    exists on (1,1), the candidate head position is (1,1), and the tail
    segment is on (1,1) too.  [update] ends the game on the self-collision:
    the score stays 10 and the snake keeps its four segments. *)
Lemma food_on_segment_ends_game :
  reachable 2 2 3 10 NONE foodUnderSnake
  ∧ SnakeGameLogic.gameOver foodUnderSnake = false
  ∧ SnakeGameLogic.candidate foodUnderSnake = Some (1, 1)
  ∧ FoodManager.isPresent (SnakeGameLogic.foodManager foodUnderSnake) = true
  ∧ FoodManager.getPosition (SnakeGameLogic.foodManager foodUnderSnake) = (1, 1)
  ∧ Snake.body (SnakeGameLogic.snake foodUnderSnake) = [(1, 0); (0, 0); (0, 1); (1, 1)]
  ∧ SnakeGameLogic.score foodUnderSnake = 10
  ∧ ∃ g', SnakeGameLogic.update 0 foodUnderSnake = Done (false, g')
          ∧ SnakeGameLogic.score g' = 10
          ∧ Snake.body (SnakeGameLogic.snake g') = [(1, 0); (0, 0); (0, 1); (1, 1)].
Proof.
  split.
  { apply (run_reachable _ _ _ _ _
             [SetDirection UP; Update 0; SetDirection LEFT; Update 1;
              SetDirection DOWN; Update 0; SetDirection RIGHT]
             (started 2 2 3 10 NONE 0)).
    - by apply (started_reachable _ _ _ _ _ 0%nat).
    - by vm_compute. }
  split_and!; try reflexivity.
  eexists. split; [by vm_compute|]. by split.
Qed.

(** C9, amended.  [initializeBoard] does not compare the starting length
    with the board.  A call with non-negative [rows] and [cols] returns
    whatever the starting length: the snake has the [startingLength]
    segments of the layout (none when it is negative), the cells tagged
    [SNAKE] are those segments that are cells of the board, and the state
    is published.  The calls that fail are those with a negative dimension,
    on the length error of the vector constructor. *)
Theorem initializeBoard_accepts_any_length (rows cols startingLength pointsPerFood : Z)
    (initialDirection : Direction) (draw : nat) (g0 : SnakeGameLogic.t) :
  (0 ≤ rows → 0 ≤ cols →
   ∃ g, SnakeGameLogic.initializeBoard rows cols startingLength pointsPerFood
          initialDirection draw g0 = Done g
        ∧ Snake.body (SnakeGameLogic.snake g)
          = layout (rows `quot` 2, cols `quot` 2) startingLength initialDirection
        ∧ length (Snake.body (SnakeGameLogic.snake g)) = Z.to_nat startingLength
        ∧ snakeMarked (SnakeGameLogic.board g) (Snake.body (SnakeGameLogic.snake g))
        ∧ published g = snapshotOf g :: published g0)
  ∧ (rows < 0 ∨ cols < 0 →
     SnakeGameLogic.initializeBoard rows cols startingLength pointsPerFood
       initialDirection draw g0 = LengthError).
Proof.
  split.
  - intros Hrows Hcols.
    destruct (initializeBoard_spec rows cols startingLength pointsPerFood
                initialDirection draw g0 Hrows Hcols)
      as (g & Heq & (_ & Hcells & _) & _ & _ & Hsnake & _ & _ & _ & _ & Hpub).
    exists g. split; [done|]. rewrite Hsnake in Hcells |- *. simpl.
    by rewrite length_layout.
  - intros Hneg. unfold SnakeGameLogic.initializeBoard, Board.initialize.
    destruct (Z.ltb_spec rows 0); [done|].
    destruct (Z.ltb_spec cols 0); [done|]. lia.
Qed.

Lemma initializeBoard_accepts_any_length_witness :
  ∃ g, SnakeGameLogic.initializeBoard 3 3 10 10 RIGHT 0 SnakeGameLogic.new = Done g
       ∧ length (Snake.body (SnakeGameLogic.snake g)) = 10%nat.
Proof.
  destruct (initializeBoard_accepts_any_length 3 3 10 10 RIGHT 0 SnakeGameLogic.new)
    as [Hok _].
  destruct Hok as (g & Hinit & _ & Hlen & _); [lia | lia |].
  by exists g.
Defined.

(** C9 as stated fails: [initializeBoard(3, 3, 10, 10, RIGHT)] asks for ten
    segments on a board of nine cells; the call returns, the snake has ten
    segments, and the published board shows two of them. *)
Lemma overlong_snake_accepted :
  SnakeGameLogic.initializeBoard 3 3 10 10 RIGHT 0 SnakeGameLogic.new = Done overlong
  ∧ 3 * 3 < Z.of_nat (length (Snake.body (SnakeGameLogic.snake overlong)))
  ∧ gs_snakeLength (SnakeGameLogic.current overlong) = 10
  ∧ snakeCells (SnakeGameLogic.current overlong) = 2.
Proof. by split_and!. Qed.

(** ** Further evaluations *)

(** The scenario of the spec: a 10 x 10 board, three segments, heading
    right; one tick moves the head to (5,6) and vacates (5,3). *)
Example opening_tick :
  Snake.body (SnakeGameLogic.snake opening) = [(5, 5); (5, 4); (5, 3)]
  ∧ Snake.body (SnakeGameLogic.snake (after opening [Update 0]))
    = [(5, 6); (5, 5); (5, 4)]
  ∧ cellAt (SnakeGameLogic.board (after opening [Update 0])) (5, 3) = EMPTY.
Proof. by split_and!. Qed.

(** Without a heading a snake of one segment stays where it is, and the
    move erases the tag of its own cell: the published board shows no
    [SNAKE] cell for the one segment. *)
Example lone_segment_untagged :
  let g := after (started 3 3 1 10 NONE 0) [Update 0] in
  reachable 3 3 1 10 NONE g
  ∧ Snake.body (SnakeGameLogic.snake g) = [(1, 1)]
  ∧ snakeCells (SnakeGameLogic.current g) = 0.
Proof.
  split; [|by split].
  apply (run_reachable _ _ _ _ _ [Update 0] (started 3 3 1 10 NONE 0)).
  - by apply (started_reachable _ _ _ _ _ 0%nat).
  - reflexivity.
Qed.

(** On an empty snake [update] reads the front of an empty deque. *)
Example update_on_empty_snake :
  SnakeGameLogic.update 0 (started 3 3 0 10 RIGHT 0) = Undefined.
Proof. reflexivity. Qed.


(** * Further properties of the classes *)

(** ** Board *)

Section BoardMore.
Implicit Types (b : Board.t) (p q : Position) (tag : CellType).

Lemma isInBounds_setCellType b r c tag r' c' :
  Board.isInBounds (Board.setCellType b r c tag) r' c' = Board.isInBounds b r' c'.
Proof.
  unfold Board.isInBounds.
  change (Board.setCellType b r c tag) with (setCell b (r, c) tag).
  by rewrite setCell_rows, setCell_cols.
Qed.

Lemma length_bind_const {A B} (f : A → list B) (l : list A) (n : nat) :
  (∀ x, x ∈ l → length (f x) = n) → length (l ≫= f) = (length l * n)%nat.
Proof.
  induction l as [|x l IH]; intros Hf; [done|].
  rewrite bind_cons, length_app, Hf by left. simpl.
  rewrite IH; [done|]. intros y Hy. apply Hf. by right.
Qed.

(** When every cell in the loop range carries the tag, the loops return
    one position per cell. *)
Lemma length_cellsWith_all tag g rows cols :
  (∀ r c, 0 ≤ r < rows → 0 ≤ c < cols → Board.at_ g r c = tag) →
  length (Board.cellsWith tag g rows cols) = (Z.to_nat rows * Z.to_nat cols)%nat.
Proof.
  intros Hall. unfold Board.cellsWith.
  rewrite (length_bind_const _ _ (Z.to_nat cols)); [by rewrite length_seqZ|].
  intros r Hr. apply elem_of_seqZ in Hr.
  rewrite (length_bind_const _ _ 1%nat); [rewrite length_seqZ; lia|].
  intros c Hc. apply elem_of_seqZ in Hc.
  rewrite decide_True; [done|]. apply Hall; lia.
Qed.

Lemma StronglySorted_bind {A B} (R : relation A) (S : relation B)
    (f : A → list B) (l : list A) :
  StronglySorted R l →
  (∀ x, x ∈ l → StronglySorted S (f x)) →
  (∀ x y u v, R x y → u ∈ f x → v ∈ f y → S u v) →
  StronglySorted S (l ≫= f).
Proof.
  intros Hl Hf Hcross. induction Hl as [|x l Hl IH Hx]; [constructor|].
  rewrite bind_cons. apply StronglySorted_app_2.
  - intros u v Hu Hv. apply list_elem_of_bind in Hv as (y & Hv & Hy).
    apply (Hcross x y); [|done|done].
    exact (proj1 (list.Forall_forall _ _) Hx y Hy).
  - apply Hf. by left.
  - apply IH. intros y Hy. apply Hf. by right.
Qed.

Lemma StronglySorted_seqZ m n : StronglySorted Z.lt (seqZ m n).
Proof.
  destruct (Z.le_gt_cases n 0) as [Hn|Hn]; [rewrite seqZ_nil by done; constructor|].
  rewrite <-(Z2Nat.id n) by lia. generalize (Z.to_nat n) as k. clear. intros k.
  induction k as [|k IH]; [rewrite seqZ_nil by done; constructor|].
  rewrite seqZ_S. apply StronglySorted_app_2; [| done | repeat constructor].
  intros x y Hx Hy. apply elem_of_seqZ in Hx. apply list_elem_of_singleton in Hy. lia.
Qed.

End BoardMore.

(** X1. Reading a cell after a write, on a board whose grid has [rows]
    rows of [cols] cells: a write inside the board is read back at its own
    position and leaves every other position as it was; a write outside the
    board changes nothing; the dimensions and the shape of the grid are
    kept. *)
Theorem setCellType_then_getCellType (b : Board.t) (r c : Z) (tag : CellType) (r' c' : Z) :
  wf_board b →
  Board.getCellType (Board.setCellType b r c tag) r' c'
  = (if Board.isInBounds b r c && bool_decide (r' = r ∧ c' = c)
     then tag else Board.getCellType b r' c')
  ∧ wf_board (Board.setCellType b r c tag)
  ∧ Board.getRows (Board.setCellType b r c tag) = Board.getRows b
  ∧ Board.getCols (Board.setCellType b r c tag) = Board.getCols b.
Proof.
  intros Hwf. split_and!.
  - unfold Board.getCellType. rewrite isInBounds_setCellType.
    destruct (Board.isInBounds b r c) eqn:Hin; simpl.
    + destruct (Board.isInBounds b r' c') eqn:Hin'; simpl.
      * change (Board.at_ (Board.grid (Board.setCellType b r c tag)) r' c')
          with (cellAt (setCell b (r, c) tag) (r', c')).
        rewrite cellAt_setCell by done.
        destruct (decide (r' = r ∧ c' = c)) as [[-> ->]|Hne].
        -- by rewrite decide_True, bool_decide_eq_true_2.
        -- rewrite decide_False, bool_decide_eq_false_2; [done | done |].
           intros [= -> ->]. by apply Hne.
      * case_bool_decide as Heq; [|done]. destruct Heq as [-> ->]. congruence.
    + change (Board.setCellType b r c tag) with (setCell b (r, c) tag).
      by rewrite setCell_out by (unfold inB; simpl; congruence).
  - apply (setCell_wf b (r, c) tag Hwf).
  - apply (setCell_rows b (r, c) tag).
  - apply (setCell_cols b (r, c) tag).
Qed.

Lemma setCellType_then_getCellType_witness :
  Board.getCellType (Board.setCellType (SnakeGameLogic.board opening) 0 9 WALL) 0 9 = WALL
  ∧ Board.getCellType (Board.setCellType (SnakeGameLogic.board opening) 0 10 WALL) 0 9 = EMPTY.
Proof.
  split.
  - destruct (setCellType_then_getCellType (SnakeGameLogic.board opening) 0 9 WALL 0 9)
      as [-> _]; [|reflexivity].
    unfold wf_board, wf_grid.
    split_and!; [by vm_compute | by vm_compute | reflexivity | repeat constructor].
  - destruct (setCellType_then_getCellType (SnakeGameLogic.board opening) 0 10 WALL 0 9)
      as [-> _]; [|reflexivity].
    unfold wf_board, wf_grid.
    split_and!; [by vm_compute | by vm_compute | reflexivity | repeat constructor].
Defined.

(** X2. [Board::initialize] with non-negative dimensions returns a board of
    these dimensions on which every position inside reads [EMPTY] and every
    position outside reads [WALL], and [getEmptyCells] returns [rows * cols]
    positions; with a negative dimension the call ends in the length error
    of the vector constructor. *)
Theorem initialize_all_empty (rows cols : Z) :
  (0 ≤ rows → 0 ≤ cols →
   ∃ b, Board.initialize rows cols = Done b
        ∧ wf_board b
        ∧ Board.getRows b = rows ∧ Board.getCols b = cols
        ∧ (∀ r c, Board.getCellType b r c
                  = if Board.isInBounds b r c then EMPTY else WALL)
        ∧ Z.of_nat (length (Board.getEmptyCells b)) = rows * cols)
  ∧ (rows < 0 ∨ cols < 0 → Board.initialize rows cols = LengthError).
Proof.
  split.
  - intros Hrows Hcols. eexists. split; [by apply initialize_done|].
    set (b := Board.mk _ rows cols).
    assert (Hb : Board.initialize rows cols = Done b) by by apply initialize_done.
    split_and!; try done.
    + by apply (initialize_wf rows cols).
    + intros r c. unfold Board.getCellType.
      destruct (Board.isInBounds b r c) eqn:Hin; [|done]. simpl.
      apply (initialize_empty rows cols b (r, c) Hb Hin).
    + unfold Board.getEmptyCells.
      rewrite length_cellsWith_all; [simpl; by rewrite Nat2Z.inj_mul, !Z2Nat.id by lia|].
      intros r c Hr Hc. apply (initialize_empty rows cols b (r, c) Hb).
      apply inB_spec. done.
  - intros Hneg. unfold Board.initialize.
    destruct (Z.ltb_spec rows 0); [done|]. destruct (Z.ltb_spec cols 0); [done|]. lia.
Qed.

Lemma initialize_all_empty_witness :
  ∃ b, Board.initialize 3 4 = Done b ∧ length (Board.getEmptyCells b) = 12%nat.
Proof.
  destruct (initialize_all_empty 3 4) as [Hok _].
  destruct Hok as (b & Hinit & _ & _ & _ & _ & Hlen); [lia | lia |].
  exists b. split; [done | lia].
Defined.

(** X3. [getEmptyCells] returns exactly the positions that [getCellType]
    reports as [EMPTY], each once, in row-major order (rows ascending, and
    columns ascending inside a row). *)
Theorem getEmptyCells_lists_empty_cells (b : Board.t) :
  (∀ p, p ∈ Board.getEmptyCells b ↔ Board.getCellType b p.1 p.2 = EMPTY)
  ∧ NoDup (Board.getEmptyCells b)
  ∧ StronglySorted rowMajor (Board.getEmptyCells b).
Proof.
  split_and!.
  - intros p. rewrite elem_of_getEmptyCells. unfold inB, Board.getCellType, cellAt.
    destruct (Board.isInBounds b p.1 p.2); simpl; [tauto|].
    split; [by intros [? _] | done].
  - apply NoDup_cellsWith.
  - unfold Board.getEmptyCells, Board.cellsWith.
    apply (StronglySorted_bind Z.lt); [apply StronglySorted_seqZ | |].
    + intros r _. apply (StronglySorted_bind Z.lt); [apply StronglySorted_seqZ | |].
      * intros c _. case_decide; repeat constructor.
      * intros c1 c2 u v Hlt Hu Hv.
        repeat case_decide; try by (apply not_elem_of_nil in Hu || apply not_elem_of_nil in Hv).
        apply list_elem_of_singleton in Hu as ->, Hv as ->. right. simpl. lia.
    + intros r1 r2 u v Hlt Hu Hv.
      apply list_elem_of_bind in Hu as (c1 & Hu & _), Hv as (c2 & Hv & _).
      repeat case_decide; try by (apply not_elem_of_nil in Hu || apply not_elem_of_nil in Hv).
      apply list_elem_of_singleton in Hu as ->, Hv as ->. left. simpl. lia.
Qed.

(** ** Snake *)

Section SnakeMore.

Lemma move_length newHead (s : Snake.t) (b : Board.t) :
  length (Snake.body (Snake.move newHead s b).1)
  = (if 0 <? Snake.growthPending s then S (length (Snake.body s))
     else length (Snake.body s))
  ∧ Snake.growthPending (Snake.move newHead s b).1
    = (if 0 <? Snake.growthPending s then Snake.growthPending s - 1
       else Snake.growthPending s).
Proof.
  unfold Snake.move. destruct (0 <? Snake.growthPending s); simpl; [done|].
  split; [|done]. apply length_removelast_cons.
Qed.

Lemma moveAll_length heads (s : Snake.t) (b : Board.t) :
  let s' := (moveAll heads (s, b)).1 in
  length (Snake.body s')
  = (length (Snake.body s) + Z.to_nat (Snake.growthPending s) `min` length heads)%nat
  ∧ Snake.growthPending s'
    = Snake.growthPending s - Z.of_nat (Z.to_nat (Snake.growthPending s) `min` length heads).
Proof.
  revert s b. induction heads as [|h heads IH]; intros s b.
  - simpl. rewrite Nat.min_0_r. split; lia.
  - change (moveAll (h :: heads) (s, b)) with (moveAll heads (Snake.move h s b)).
    destruct (Snake.move h s b) as [s1 b1] eqn:Hmove.
    destruct (move_length h s b) as [Hlen Hpend]. rewrite Hmove in Hlen, Hpend.
    simpl in Hlen, Hpend.
    destruct (Z.ltb_spec 0 (Snake.growthPending s)) as [Hpos|Hzero].
    + destruct (IH s1 b1) as [IHlen IHpend]. simpl.
      rewrite IHlen, IHpend, Hlen, Hpend. split; lia.
    + destruct (IH s1 b1) as [IHlen IHpend]. simpl.
      rewrite IHlen, IHpend, Hlen, Hpend. split; lia.
Qed.

Lemma contiguous_cons p l :
  contiguous l → (∀ q, head l = Some q → adjacent p q) → contiguous (p :: l).
Proof. destruct l as [|q l]; [done|]. intros Hl Hq. split; [by apply Hq | done]. Qed.

Lemma contiguous_removelast l : contiguous l → contiguous (removelast l).
Proof.
  induction l as [|p l IH]; [done|]. destruct l as [|q l]; [done|].
  intros [Hpq Hl]. change (removelast (p :: q :: l)) with (p :: removelast (q :: l)).
  apply contiguous_cons; [by apply IH|].
  destruct l as [|q' l]; [done|]. by intros ? [= <-].
Qed.

Lemma head_removelast {A} (l : list A) (x y : A) :
  head (removelast (x :: y :: l)) = Some x.
Proof. done. Qed.

Lemma segment_behind startPos dir i :
  dir ≠ NONE →
  DirectionController.getNextPosition (heading dir) (Snake.segment startPos dir (i + 1))
  = Snake.segment startPos dir i.
Proof.
  intros Hdir. unfold Snake.segment, DirectionController.getNextPosition, heading.
  destruct startPos as [r c]. simpl. destruct dir; try done; f_equal; lia.
Qed.

Lemma getNextPosition_adjacent (d : DirectionController.t) p :
  DirectionController.current d ≠ NONE →
  adjacent (DirectionController.getNextPosition d p) p.
Proof.
  intros Hd. unfold DirectionController.getNextPosition, adjacent. destruct p as [r c].
  destruct (DirectionController.current d); simpl; try done; lia.
Qed.

Lemma contiguous_layout startPos len dir :
  dir ≠ NONE → contiguous (layout startPos len dir).
Proof.
  intros Hdir. unfold layout.
  destruct (Z.le_gt_cases len 0) as [Hn|Hn]; [by rewrite seqZ_nil|].
  rewrite <-(Z2Nat.id len) by lia. generalize (Z.to_nat len) as k. clear Hn. intros k.
  generalize 0 as m. induction k as [|k IH]; intros m; [by rewrite seqZ_nil|].
  rewrite seqZ_cons by lia. rewrite fmap_cons.
  replace (Z.pred (Z.of_nat (S k))) with (Z.of_nat k) by lia.
  apply contiguous_cons; [apply IH|].
  destruct k as [|k]; [by rewrite seqZ_nil|].
  rewrite seqZ_cons by lia. simpl. intros q [= <-].
  replace (Z.succ m) with (m + 1) by lia.
  rewrite <-(segment_behind startPos dir m Hdir).
  unfold adjacent.
  pose proof (getNextPosition_adjacent (heading dir)
                (Snake.segment startPos dir (m + 1)) Hdir) as Hadj.
  unfold adjacent in Hadj. lia.
Qed.

Lemma initialize_trails_layout startPos len dir :
  dir ≠ NONE →
  ∀ i p q, layout startPos len dir !! i = Some p → layout startPos len dir !! S i = Some q →
           p = Snake.segment startPos dir (Z.of_nat i)
           ∧ q = Snake.segment startPos dir (Z.of_nat i + 1).
Proof.
  intros Hdir i p q Hp Hq. unfold layout in Hp, Hq. rewrite list_lookup_fmap in Hp, Hq.
  destruct (seqZ 0 len !! i) as [x|] eqn:Hx; [|done].
  destruct (seqZ 0 len !! S i) as [y|] eqn:Hy; [|done].
  apply lookup_seqZ in Hx as [-> _], Hy as [-> _].
  injection Hp as <-. injection Hq as <-. split; f_equal; lia.
Qed.

End SnakeMore.

(** X4. [Snake::initialize] lays out [length] segments (none for a
    negative length) with no growth pending; the head is the start
    position; for a heading other than [NONE] the segments are pairwise
    distinct and each one is a single step of the heading behind its
    predecessor; on a well-formed board a position inside reads [SNAKE]
    afterwards when it is one of the segments and keeps its tag otherwise. *)
Theorem initialize_trails_behind_head (startPos : Position) (len : Z)
    (dir : Direction) (b : Board.t) :
  let s' := (Snake.initialize startPos len dir b).1 in
  let b' := (Snake.initialize startPos len dir b).2 in
  length (Snake.getBody s') = Z.to_nat len
  ∧ Snake.hasPendingGrowth s' = false
  ∧ (0 < len → Snake.getHead s' = Some startPos)
  ∧ (dir ≠ NONE →
     NoDup (Snake.getBody s')
     ∧ ∀ i p q, Snake.getBody s' !! i = Some p → Snake.getBody s' !! S i = Some q →
                DirectionController.getNextPosition (heading dir) q = p)
  ∧ (wf_board b →
     ∀ r c, Board.isInBounds b r c = true →
            Board.getCellType b' r c
            = if bool_decide ((r, c) ∈ Snake.getBody s') then SNAKE
              else Board.getCellType b r c).
Proof.
  intros s' b'. subst s' b'. rewrite initialize_layout. simpl.
  unfold Snake.getBody, Snake.hasPendingGrowth, Snake.getHead. simpl. split_and!.
  - apply length_layout.
  - done.
  - intros Hlen. unfold layout. rewrite seqZ_cons by done. simpl.
    unfold Snake.segment. destruct startPos as [r c].
    destruct dir; f_equal; f_equal; lia.
  - intros Hdir. split; [by apply NoDup_layout|]. intros i p q Hp Hq.
    unfold layout in Hp, Hq. rewrite list_lookup_fmap in Hp, Hq.
    destruct (seqZ 0 len !! i) as [x|] eqn:Hx; [|done].
    destruct (seqZ 0 len !! S i) as [y|] eqn:Hy; [|done].
    apply lookup_seqZ in Hx as [-> _], Hy as [-> _].
    injection Hp as <-. injection Hq as <-.
    replace (0 + Z.of_nat (S i)) with (0 + Z.of_nat i + 1) by lia.
    by apply segment_behind.
  - intros Hwf r c Hin. unfold Board.getCellType.
    assert (Hin' : inB (markSnake b (layout startPos len dir)) (r, c))
      by by apply inB_markSnake.
    unfold inB in Hin'. simpl in Hin'. rewrite Hin', Hin. simpl.
    change (Board.at_ (Board.grid (markSnake b (layout startPos len dir))) r c)
      with (cellAt (markSnake b (layout startPos len dir)) (r, c)).
    rewrite cellAt_markSnake by done. by case_bool_decide; case_decide.
Qed.

Lemma initialize_trails_behind_head_witness :
  Snake.getBody (Snake.initialize (5, 5) 3 RIGHT (SnakeGameLogic.board opening)).1
  = [(5, 5); (5, 4); (5, 3)]
  ∧ DirectionController.getNextPosition (heading RIGHT) (5, 4) = (5, 5).
Proof.
  split; [reflexivity|].
  destruct (initialize_trails_behind_head (5, 5) 3 RIGHT (SnakeGameLogic.board opening))
    as (_ & _ & _ & Htrail & _).
  destruct Htrail as [_ Htrail]; [discriminate|].
  apply (Htrail 0%nat); reflexivity.
Defined.

(** X5. [grow] and [move] compose, for any amount and any counter.  With
    [counter] the growth counter that [grow(amount)] leaves (the old counter
    plus [amount], taken within the range of [int]), a sequence of moves
    adds one segment per move while the counter is positive and none from
    then on: the length goes up by the smaller of the number of moves and
    the counter (by nothing when the counter is not positive), and the
    counter goes down by the number of segments added.  [hasPendingGrowth]
    answers [true] afterwards exactly when there were fewer moves than the
    counter.  So the moves never take the counter below zero; a counter
    that a negative [amount] has made negative is left as it is. *)
Theorem grow_then_moves (s : Snake.t) (b : Board.t) (amount : Z) (heads : list Position) :
  let counter := Snake.growthPending s + amount in
  let added := (Z.to_nat counter `min` length heads)%nat in
  let s' := (moveAll heads (Snake.grow amount s, b)).1 in
  Snake.getLength s' = (Snake.getLength s + added)%nat
  ∧ Snake.growthPending s' = counter - Z.of_nat added
  ∧ Z.min 0 counter ≤ Snake.growthPending s' ≤ counter
  ∧ (Snake.hasPendingGrowth s' = true ↔ (length heads < Z.to_nat counter)%nat).
Proof.
  intros counter added s'.
  destruct (moveAll_length heads (Snake.grow amount s) b) as [Hlen Hgrow].
  fold s' in Hlen, Hgrow. simpl in Hlen, Hgrow. fold counter in Hlen, Hgrow.
  fold added in Hlen, Hgrow.
  unfold Snake.getLength, Snake.hasPendingGrowth. rewrite Hlen, Hgrow.
  split_and!; [done | done | lia | lia |].
  rewrite Z.ltb_lt. lia.
Qed.

Lemma grow_then_moves_witness :
  Snake.getLength
    (moveAll [(0, 3); (0, 2); (0, 1)]
       (Snake.grow 2 (SnakeGameLogic.snake tailChase), SnakeGameLogic.board tailChase)).1
  = 6%nat
  ∧ Snake.growthPending
      (moveAll [(0, 3); (0, 2); (0, 1)]
         (Snake.grow (-1) (SnakeGameLogic.snake tailChase),
          SnakeGameLogic.board tailChase)).1
    = -1.
Proof.
  split.
  - destruct (grow_then_moves (SnakeGameLogic.snake tailChase)
                (SnakeGameLogic.board tailChase) 2 [(0, 3); (0, 2); (0, 1)]) as [-> _].
    reflexivity.
  - destruct (grow_then_moves (SnakeGameLogic.snake tailChase)
                (SnakeGameLogic.board tailChase) (-1) [(0, 3); (0, 2); (0, 1)])
      as (_ & -> & _).
    reflexivity.
Defined.

(** ** FoodManager *)

Section FoodMore.
Implicit Types (b : Board.t) (p q : Position).

Lemma getCellType_cellAt b p :
  Board.getCellType b p.1 p.2 = if Board.isInBounds b p.1 p.2 then cellAt b p else WALL.
Proof. unfold Board.getCellType. by destruct (Board.isInBounds b p.1 p.2). Qed.

(** Writing [EMPTY] over a tag written on an [EMPTY] cell gives the board
    back. *)
Lemma setCell_undo b p tag :
  wf_board b → inB b p → cellAt b p = EMPTY →
  setCell (setCell b p tag) p EMPTY = b.
Proof.
  intros (Hr & Hc & Hlen & Hrows) Hp Hempty.
  assert (Hp' : inB (setCell b p tag) p) by by apply inB_setCell.
  pose proof Hp as Hp0. unfold inB, setCell in Hp0, Hp'.
  unfold setCell. unfold Board.setCellType at 1. rewrite Hp'.
  unfold Board.setCellType. rewrite Hp0. simpl.
  apply inB_spec in Hp as [Hp1 Hp2].
  destruct (lookup_lt_is_Some_2 (Board.grid b) (Z.to_nat p.1)) as [row Hrow]; [lia|].
  assert (Hrowlen : length row = Z.to_nat (Board.cols b)).
  { rewrite Forall_lookup in Hrows. by apply (Hrows (Z.to_nat p.1)). }
  rewrite (list_lookup_total_correct _ _ _ Hrow).
  rewrite list_lookup_total_insert_eq by lia.
  rewrite !list_insert_insert_eq.
  unfold cellAt, Board.at_ in Hempty.
  rewrite (list_lookup_total_correct _ _ _ Hrow) in Hempty.
  assert (Hcell : row !! Z.to_nat p.2 = Some EMPTY).
  { rewrite <-Hempty. apply list_lookup_lookup_total_lt. lia. }
  rewrite (list_insert_id row _ _ Hcell), (list_insert_id _ _ _ Hrow).
  by destruct b.
Qed.

Lemma placeRandom_some draw (f : FoodManager.t) b :
  Board.getEmptyCells b ≠ [] →
  let p := Board.getEmptyCells b !!! (draw mod length (Board.getEmptyCells b))%nat in
  FoodManager.placeRandom draw f b
  = ({| FoodManager.position := p; FoodManager.exists_ := true |}, setCell b p FOOD)
  ∧ p ∈ Board.getEmptyCells b.
Proof.
  intros Hcells p. split.
  - unfold FoodManager.placeRandom. subst p.
    by destruct (Board.getEmptyCells b).
  - apply list_elem_of_lookup_total_2, Nat.mod_upper_bound.
    by destruct (Board.getEmptyCells b).
Qed.

End FoodMore.

(** X6. [placeRandom] on a well-formed board.  With no empty cell it leaves
    the board as it is and reports no food.  Otherwise the food position is
    the entry of [getEmptyCells] selected by the draw; that cell read
    [EMPTY] before and reads [FOOD] afterwards, every other position reads
    as before, and the board has one empty cell less. *)
Theorem placeRandom_takes_an_empty_cell (draw : nat) (f : FoodManager.t) (b : Board.t) :
  wf_board b →
  let f' := (FoodManager.placeRandom draw f b).1 in
  let b' := (FoodManager.placeRandom draw f b).2 in
  let cells := Board.getEmptyCells b in
  (cells = [] → FoodManager.isPresent f' = false ∧ b' = b)
  ∧ (cells ≠ [] →
     FoodManager.isPresent f' = true
     ∧ FoodManager.getPosition f' = cells !!! (draw mod length cells)%nat
     ∧ Board.getCellType b (FoodManager.getPosition f').1 (FoodManager.getPosition f').2
       = EMPTY
     ∧ Board.getCellType b' (FoodManager.getPosition f').1 (FoodManager.getPosition f').2
       = FOOD
     ∧ (∀ q, q ≠ FoodManager.getPosition f' →
             Board.getCellType b' q.1 q.2 = Board.getCellType b q.1 q.2)
     ∧ S (length (Board.getEmptyCells b')) = length cells).
Proof.
  intros Hwf f' b' cells. subst f' b' cells. split.
  { intros Hcells. unfold FoodManager.placeRandom. by rewrite Hcells. }
  intros Hcells. destruct (placeRandom_some draw f b Hcells) as [-> Hp].
  set (p := Board.getEmptyCells b !!! (draw mod length (Board.getEmptyCells b))%nat) in *.
  apply elem_of_getEmptyCells in Hp as [Hin Hempty].
  unfold FoodManager.isPresent, FoodManager.getPosition.
  cbn [fst snd FoodManager.position FoodManager.exists_].
  split_and!; try done.
  - by rewrite getCellType_cellAt, Hin.
  - rewrite getCellType_cellAt. apply (inB_setCell b p FOOD p) in Hin as Hin'.
    unfold inB in Hin'. rewrite Hin'. by apply cellAt_setCell_eq.
  - intros q Hq. rewrite !getCellType_cellAt.
    change (Board.isInBounds (setCell b p FOOD) q.1 q.2)
      with (Board.isInBounds (Board.setCellType b p.1 p.2 FOOD) q.1 q.2).
    rewrite isInBounds_setCellType.
    destruct (Board.isInBounds b q.1 q.2) eqn:Hq'; [|done].
    by apply cellAt_setCell_ne.
  - change (S (length (Board.getEmptyCells (setCell b p FOOD))))
      with (length (p :: Board.getEmptyCells (setCell b p FOOD))).
    apply Permutation_length, NoDup_Permutation.
    + apply list.NoDup_cons. split; [|apply NoDup_cellsWith].
      rewrite elem_of_getEmptyCells, cellAt_setCell_eq by done. by intros [_ ?].
    + apply NoDup_cellsWith.
    + intros q. rewrite elem_of_cons, !elem_of_getEmptyCells, inB_setCell.
      destruct (decide (q = p)) as [->|Hne].
      * rewrite cellAt_setCell_eq by done. split; [by intros [?|[_ ?]] | by left].
      * split.
        -- intros [?|[Hq Hcell]]; [done|]. by rewrite cellAt_setCell_ne in Hcell.
        -- intros [Hq Hcell]. right. by rewrite cellAt_setCell_ne.
Qed.

Lemma placeRandom_takes_an_empty_cell_witness :
  FoodManager.getPosition
    (FoodManager.placeRandom 0 FoodManager.new (SnakeGameLogic.board opening)).1
  = (0, 1).
Proof.
  destruct (placeRandom_takes_an_empty_cell 0 FoodManager.new (SnakeGameLogic.board opening))
    as [_ Hsome].
  - unfold wf_board, wf_grid.
    split_and!; [by vm_compute | by vm_compute | reflexivity | repeat constructor].
  - destruct Hsome as (_ & -> & _); [|reflexivity]. discriminate.
Defined.

(** X7. [remove] undoes [placeRandom]: on a well-formed board, placing
    food and removing it again gives back the board cell for cell, with no
    food present; a second [remove] changes nothing. *)
Theorem placeRandom_then_remove (draw : nat) (f : FoodManager.t) (b : Board.t) :
  wf_board b →
  let placed := FoodManager.placeRandom draw f b in
  let removed := FoodManager.remove placed.1 placed.2 in
  removed.2 = b
  ∧ FoodManager.isPresent removed.1 = false
  ∧ FoodManager.remove removed.1 removed.2 = removed.
Proof.
  intros Hwf placed removed. subst placed removed.
  destruct (Board.getEmptyCells b) as [|e es] eqn:Hcells.
  - unfold FoodManager.placeRandom. rewrite Hcells. done.
  - destruct (placeRandom_some draw f b) as [-> Hp]; [by rewrite Hcells|].
    set (p := Board.getEmptyCells b !!! (draw mod length (Board.getEmptyCells b))%nat) in *.
    apply elem_of_getEmptyCells in Hp as [Hin Hempty].
    unfold FoodManager.remove. cbn [fst snd FoodManager.position FoodManager.exists_].
    fold (setCell (setCell b p FOOD) p EMPTY). rewrite setCell_undo by done. done.
Qed.

Lemma placeRandom_then_remove_witness :
  let placed := FoodManager.placeRandom 5 FoodManager.new (SnakeGameLogic.board opening) in
  (FoodManager.remove placed.1 placed.2).2 = SnakeGameLogic.board opening.
Proof.
  intros placed.
  destruct (placeRandom_then_remove 5 FoodManager.new (SnakeGameLogic.board opening))
    as [Hboard _]; [|exact Hboard].
  unfold wf_board, wf_grid.
  split_and!; [by vm_compute | by vm_compute | reflexivity | repeat constructor].
Defined.

(** ** CollisionDetector and DirectionController *)

(** X8. [getNextPosition] moves by exactly one cell for each of the four
    headings and not at all for [NONE]; [isValidChange] rejects a request
    other than [NONE] exactly when a step in the requested direction undoes
    a step in the current one. *)
Theorem reversal_undoes_a_step (d : DirectionController.t) (newDir : Direction) :
  (∀ p, if bool_decide (DirectionController.getCurrent d = NONE)
        then DirectionController.getNextPosition d p = p
        else adjacent (DirectionController.getNextPosition d p) p)
  ∧ (newDir ≠ NONE →
     (DirectionController.isValidChange d newDir = false
      ↔ ∀ p, DirectionController.getNextPosition (heading newDir)
               (DirectionController.getNextPosition d p) = p)).
Proof.
  split.
  - intros [r c]. unfold DirectionController.getCurrent, DirectionController.getNextPosition,
      adjacent.
    destruct (DirectionController.current d); simpl; try done; lia.
  - intros Hnew. unfold DirectionController.isValidChange,
      DirectionController.getNextPosition, heading. simpl. split.
    + intros Hrej [r c].
      destruct (DirectionController.current d), newDir; try done; f_equal; lia.
    + intros Hundo. specialize (Hundo (0, 0)).
      destruct (DirectionController.current d), newDir; try done; injection Hundo; lia.
Qed.

Lemma reversal_undoes_a_step_witness :
  DirectionController.isValidChange (heading UP) DOWN = false.
Proof.
  destruct (reversal_undoes_a_step (heading UP) DOWN) as [_ Hrev].
  apply Hrev; [discriminate|]. by intros [r c]; simpl; f_equal; lia.
Defined.

(** ** SnakeGameLogic: what a tick does to any state *)

Section TickMore.
Import SnakeGameLogic.

Lemma move_board p (s : Snake.t) (b : Board.t) :
  (Snake.move p s b).2
  = if 0 <? Snake.growthPending s then setCell b p SNAKE
    else setCell (setCell b p SNAKE) (List.last (p :: Snake.body s) p) EMPTY.
Proof. unfold Snake.move. by destruct (0 <? Snake.growthPending s). Qed.

Lemma remove_board (f : FoodManager.t) (b : Board.t) :
  (FoodManager.remove f b).2
  = if FoodManager.exists_ f then setCell b (FoodManager.position f) EMPTY else b.
Proof. unfold FoodManager.remove. by destruct (FoodManager.exists_ f). Qed.

(** A property of boards that every write of [EMPTY], [SNAKE] or [FOOD]
    keeps is kept by the food branch, the move and the food placement. *)
Lemma advance_board_keeps (P : Board.t → Prop) draw p g :
  (∀ b q tag, tag ≠ WALL → P b → P (setCell b q tag)) →
  P (board g) → P (board (advance draw p g)).
Proof.
  intros Hset Hb. unfold advance.
  assert (H2 : P (board (eat p g))).
  { unfold eat. destruct (CollisionDetector.isFood p (foodManager g)); [|done].
    pose proof (remove_board (foodManager g) (board g)) as Hrem.
    destruct (FoodManager.remove (foodManager g) (board g)) as [f' b']. simpl in *.
    rewrite Hrem. destruct (FoodManager.exists_ (foodManager g)); [|done].
    by apply Hset. }
  set (g2 := eat p g) in *.
  assert (H3 : P (board (moveSnake p g2))).
  { unfold moveSnake. pose proof (move_board p (snake g2) (board g2)) as Hmove.
    destruct (Snake.move p (snake g2) (board g2)) as [s' b']. simpl in *.
    rewrite Hmove. destruct (0 <? Snake.growthPending (snake g2)).
    - by apply Hset.
    - apply Hset; [done|]. by apply Hset. }
  set (g3 := moveSnake p g2) in *.
  unfold refillFood. destruct (negb (FoodManager.isPresent (foodManager g3))); [|done].
  destruct (placeRandom_cases draw (foodManager g3) (board g3))
    as [[_ ->]|(q & _ & ->)]; simpl; [done|]. by apply Hset.
Qed.

Lemma markSnake_keeps (P : Board.t → Prop) b ps :
  (∀ b q tag, tag ≠ WALL → P b → P (setCell b q tag)) →
  P b → P (markSnake b ps).
Proof.
  intros Hset. revert b. induction ps as [|p ps IH]; intros b Hb; [done|].
  apply IH. by apply Hset.
Qed.

Lemma setCell_sound b q tag : tag ≠ WALL → sound b → sound (setCell b q tag).
Proof.
  intros Htag [Hwf Hnowall]. split; [by apply setCell_wf|].
  intros p Hp. apply inB_setCell in Hp.
  destruct (decide (p = q)) as [->|Hne].
  - by rewrite cellAt_setCell_eq.
  - rewrite cellAt_setCell_ne by done. by apply Hnowall.
Qed.

Lemma advance_score draw p g :
  score (advance draw p g)
  = if CollisionDetector.isFood p (foodManager g)
    then wrapInt (score g + pointsPerFood g)
    else score g.
Proof.
  unfold advance, refillFood, moveSnake, eat.
  destruct (CollisionDetector.isFood p (foodManager g)).
  - destruct (FoodManager.remove (foodManager g) (board g)) as [f' b'].
    destruct (Snake.move _ _ _). simpl.
    destruct (negb _); [|done]. by destruct (FoodManager.placeRandom draw _ _).
  - destruct (Snake.move _ _ _). simpl.
    destruct (negb _); [|done]. by destruct (FoodManager.placeRandom draw _ _).
Qed.

Lemma advance_flags draw p g :
  gameOver (advance draw p g) = gameOver g
  ∧ directionController (advance draw p g) = directionController g.
Proof.
  unfold advance, refillFood, moveSnake, eat.
  destruct (CollisionDetector.isFood p (foodManager g)).
  - destruct (FoodManager.remove (foodManager g) (board g)) as [f' b'].
    destruct (Snake.move _ _ _). simpl.
    destruct (negb _); [|done]. by destruct (FoodManager.placeRandom draw _ _).
  - destruct (Snake.move _ _ _). simpl.
    destruct (negb _); [|done]. by destruct (FoodManager.placeRandom draw _ _).
Qed.

(** After the food placement, a board without food has no empty cell. *)
Lemma advance_no_food draw p g :
  FoodManager.exists_ (foodManager (advance draw p g)) = false →
  Board.getEmptyCells (board (advance draw p g)) = [].
Proof.
  unfold advance. set (g3 := moveSnake p (eat p g)). unfold refillFood.
  unfold FoodManager.isPresent.
  destruct (FoodManager.exists_ (foodManager g3)) eqn:Hex; simpl; [congruence|].
  destruct (placeRandom_cases draw (foodManager g3) (board g3))
    as [[Hnil ->]|(q & _ & ->)]; simpl; done.
Qed.

(** The outcome of [update] on a running game with a head and no pending
    growth: the tick ends on a collision, and only the flag, the mailbox
    and the publisher change, or it advances the game. *)
Lemma update_effect draw g h :
  gameOver g = false → Snake.getHead (snake g) = Some h →
  let newHead :=
    DirectionController.getNextPosition
      (DirectionController.processInput (directionController g)) h in
  let collided :=
    CollisionDetector.isOutOfBounds newHead (board g)
    || CollisionDetector.isWall newHead (board g)
    || Snake.checkSelfCollision (snake g) newHead in
  let g4 := advance draw newHead (afterInput g) in
  ∃ continues g',
    update draw g = Done (continues, g')
    ∧ continues = negb (gameOver g')
    ∧ current g' = snapshotOf g'
    ∧ published g' = snapshotOf g' :: published g
    ∧ pointsPerFood g' = pointsPerFood g
    ∧ directionController g'
      = DirectionController.processInput (directionController g)
    ∧ (if collided
       then gameOver g' = true ∧ board g' = board g ∧ snake g' = snake g
            ∧ foodManager g' = foodManager g ∧ score g' = score g
       else board g' = board g4 ∧ snake g' = snake g4
            ∧ foodManager g' = foodManager g4 ∧ score g' = score g4
            ∧ gameOver g' = boardFull g4).
Proof.
  intros Hrun Hhead newHead collided g4.
  rewrite (update_unfold draw g h Hrun Hhead). cbv zeta.
  change (directionController (afterInput g))
    with (DirectionController.processInput (directionController g)).
  fold newHead g4. subst collided.
  pose proof (advance_publisher draw newHead (afterInput g)) as Hpub.
  pose proof (advance_pointsPerFood draw newHead (afterInput g)) as Hppf.
  destruct (advance_flags draw newHead (afterInput g)) as [Hover Hdc].
  fold g4 in Hpub, Hppf, Hover, Hdc.
  change (gameOver (afterInput g)) with (gameOver g) in Hover. rewrite Hrun in Hover.
  destruct (_ || _ || _).
  - eexists false, _. split; [reflexivity|]. rewrite publish_current. by split_and!.
  - destruct (boardFull g4) eqn:Hfull.
    + eexists false, _. split; [reflexivity|]. rewrite publish_current.
      split_and!; try done. unfold published. simpl. by rewrite Hpub.
    + eexists true, _. split; [reflexivity|]. rewrite publish_current.
      split_and!; try done.
      * simpl. by rewrite Hover.
      * unfold published. simpl. by rewrite Hpub.
Qed.

End TickMore.

(** X9. The mailbox holds one request and a tick consumes it: of two
    [setDirection] calls before a tick only the second one counts; a tick
    on a running game leaves the mailbox empty and a heading that is the
    request, if it was taken, or the previous one; a tick on a terminal
    game returns before reading the mailbox and leaves the request in
    it. *)
Theorem request_consumed_by_one_tick (a b : Direction) (draw : nat) (g : SnakeGameLogic.t) :
  SnakeGameLogic.update draw (SnakeGameLogic.setDirection b (SnakeGameLogic.setDirection a g))
  = SnakeGameLogic.update draw (SnakeGameLogic.setDirection b g)
  ∧ ∀ continues g',
      SnakeGameLogic.update draw (SnakeGameLogic.setDirection b g) = Done (continues, g') →
      let d := SnakeGameLogic.directionController g in
      let d' := SnakeGameLogic.directionController g' in
      if SnakeGameLogic.gameOver g
      then DirectionController.atomicInput d' = b
           ∧ DirectionController.getCurrent d' = DirectionController.getCurrent d
      else DirectionController.atomicInput d' = NONE
           ∧ DirectionController.getCurrent d'
             = (if negb (bool_decide (b = NONE)) && DirectionController.isValidChange d b
                then b else DirectionController.next d)
           ∧ SnakeGameLogic.update draw g'
             = SnakeGameLogic.update draw (SnakeGameLogic.setDirection NONE g').
Proof.
  split; [done|]. intros continues g' Hupd d d'. subst d d'.
  destruct (update_done _ _ _ _ Hupd) as [[Hover ->]|[Hrun [h Hhead]]].
  - change (SnakeGameLogic.gameOver (SnakeGameLogic.setDirection b g))
      with (SnakeGameLogic.gameOver g) in Hover.
    by rewrite Hover.
  - destruct (update_effect draw (SnakeGameLogic.setDirection b g) h Hrun Hhead)
      as (c & g1 & Heq & _ & _ & _ & _ & Hdc & _).
    change (SnakeGameLogic.gameOver (SnakeGameLogic.setDirection b g))
      with (SnakeGameLogic.gameOver g) in Hrun.
    rewrite Hrun.
    rewrite Hupd in Heq. injection Heq as <- <-. rewrite Hdc. split_and!; try done.
    destruct g' as [? ? ? [cur nxt box] ? ? ? ?]. simpl in Hdc.
    injection Hdc as _ _ ->. done.
Qed.

Lemma request_consumed_by_one_tick_witness :
  ∃ g', SnakeGameLogic.update 0 (SnakeGameLogic.setDirection UP opening) = Done (true, g')
        ∧ DirectionController.atomicInput (SnakeGameLogic.directionController g') = NONE
        ∧ DirectionController.getCurrent (SnakeGameLogic.directionController g') = UP.
Proof.
  destruct (request_consumed_by_one_tick LEFT UP 0 opening) as [_ Hone].
  eexists. split; [by vm_compute|].
  match goal with |- context [SnakeGameLogic.directionController ?x] =>
    destruct (Hone true x) as (Hbox & Hcur & _); [by vm_compute|] end.
  split; [exact Hbox | exact Hcur].
Defined.

(** ** SnakeGameLogic: invariants of every game *)

Section GameMore.
Import SnakeGameLogic.
Context (rows cols startingLength ppf : Z) (initialDirection : Direction).

(** Induction over the calls, with the terminal no-op of [update] taken
    care of. *)
Lemma reachable_invariant (P : t → Prop) :
  (∀ draw g,
     initializeBoard rows cols startingLength ppf initialDirection draw new = Done g →
     P g) →
  (∀ d g, reachable rows cols startingLength ppf initialDirection g →
          P g → P (setDirection d g)) →
  (∀ draw g h continues g',
     reachable rows cols startingLength ppf initialDirection g → P g →
     gameOver g = false → Snake.getHead (snake g) = Some h →
     update draw g = Done (continues, g') → P g') →
  ∀ g, reachable rows cols startingLength ppf initialDirection g → P g.
Proof.
  intros Hinit Hset Hupd g.
  induction 1 as [draw g Hg|d g Hreach IH|draw g continues g' Hreach IH Hg].
  - by apply (Hinit draw).
  - by apply Hset.
  - destruct (update_done _ _ _ _ Hg) as [[_ ->]|[Hrun [h Hhead]]]; [done|].
    by apply (Hupd draw g h continues g').
Qed.

(** What [initializeBoard] builds, step by step. *)
Lemma initializeBoard_parts draw g0 g :
  initializeBoard rows cols startingLength ppf initialDirection draw g0 = Done g →
  ∃ b0, Board.initialize rows cols = Done b0
        ∧ let body := layout (rows `quot` 2, cols `quot` 2) startingLength initialDirection in
          let placed := FoodManager.placeRandom draw (foodManager g0) (markSnake b0 body) in
          board g = placed.2 ∧ foodManager g = placed.1
          ∧ Snake.body (snake g) = body
          ∧ score g = 0 ∧ gameOver g = false
          ∧ current g = snapshotOf g
          ∧ published g = snapshotOf g :: published g0.
Proof.
  unfold initializeBoard. destruct (Board.initialize rows cols) as [b0| |]; [|done|done].
  rewrite initialize_layout.
  destruct (FoodManager.placeRandom _ _ _) as [f' b'] eqn:Hplace.
  intros [= <-]. exists b0. split; [done|]. rewrite Hplace, publish_current.
  by split_and!.
Qed.

Lemma fresh_sound b0 : Board.initialize rows cols = Done b0 → sound b0.
Proof.
  intros Hb0. split; [by apply (initialize_wf rows cols)|].
  intros p Hp. by rewrite (initialize_empty rows cols b0 p Hb0 Hp).
Qed.

(** The board of a reachable state: well-formed, of the dimensions given
    to [initializeBoard], without a [WALL] cell, and without an empty cell
    when there is no food; the visible snapshot is the one of the state. *)
Lemma reachable_board g :
  reachable rows cols startingLength ppf initialDirection g →
  sound (board g)
  ∧ (Board.rows (board g) = rows ∧ Board.cols (board g) = cols)
  ∧ (FoodManager.exists_ (foodManager g) = false → Board.getEmptyCells (board g) = [])
  ∧ current g = snapshotOf g.
Proof.
  revert g. apply (reachable_invariant (λ g,
    sound (board g)
    ∧ (Board.rows (board g) = rows ∧ Board.cols (board g) = cols)
    ∧ (FoodManager.exists_ (foodManager g) = false → Board.getEmptyCells (board g) = [])
    ∧ current g = snapshotOf g)).
  - intros draw g Hinit.
    destruct (initializeBoard_parts draw new g Hinit)
      as (b0 & Hb0 & Hboard & Hfood & _ & _ & _ & Hcur & _).
    set (body := layout (rows `quot` 2, cols `quot` 2) startingLength initialDirection) in *.
    assert (Hdims : Board.rows b0 = rows ∧ Board.cols b0 = cols).
    { unfold Board.initialize in Hb0. destruct (_ || _); [done|]. by injection Hb0 as <-. }
    assert (H1 : sound (markSnake b0 body)).
    { apply markSnake_keeps; [apply setCell_sound | by apply fresh_sound]. }
    rewrite Hboard, Hfood.
    destruct (markSnake_dims b0 body) as [Hr Hc]. destruct Hdims as [Hr0 Hc0].
    destruct (placeRandom_cases draw (foodManager new) (markSnake b0 body))
      as [[Hnil ->]|(q & _ & ->)]; simpl.
    + split_and!; try done; congruence.
    + split_and!; try done.
      * by apply setCell_sound.
      * rewrite setCell_rows. congruence.
      * rewrite setCell_cols. congruence.
  - done.
  - intros draw g h continues g' Hreach (Hsound & [Hr Hc] & Hnofood & Hcur) Hrun Hhead Hupd.
    destruct (update_effect draw g h Hrun Hhead)
      as (c & g1 & Heq & _ & Hcur' & _ & _ & _ & Hcase).
    rewrite Hupd in Heq. injection Heq as <- <-.
    destruct (_ || _ || _).
    + destruct Hcase as (_ & -> & _ & -> & _). by split_and!.
    + destruct Hcase as (-> & _ & -> & _). split_and!; try done.
      * by apply advance_board_keeps; [apply setCell_sound|].
      * apply (advance_board_keeps (λ b, Board.rows b = rows)); [|done].
        intros b q tag _ <-. apply setCell_rows.
      * apply (advance_board_keeps (λ b, Board.cols b = cols)); [|done].
        intros b q tag _ <-. apply setCell_cols.
      * apply advance_no_food.
Qed.

Lemma inB_dims (b b' : Board.t) p :
  Board.rows b' = Board.rows b → Board.cols b' = Board.cols b → inB b p → inB b' p.
Proof. intros Hr Hc. rewrite !inB_spec. by rewrite Hr, Hc. Qed.

(** The snake after a tick that returned, on a game with no pending
    growth. *)
Lemma update_snake draw g h continues g' :
  gameOver g = false → Snake.getHead (snake g) = Some h →
  Snake.growthPending (snake g) = 0 →
  update draw g = Done (continues, g') →
  let newHead :=
    DirectionController.getNextPosition
      (DirectionController.processInput (directionController g)) h in
  let hit := CollisionDetector.isFood newHead (foodManager g) in
  (snake g' = snake g ∧ score g' = score g)
  ∨ (CollisionDetector.isOutOfBounds newHead (board g) = false
     ∧ Snake.body (snake g')
       = newHead :: (if hit then Snake.body (snake g)
                     else removelast (Snake.body (snake g)))
     ∧ score g' = (if hit then wrapInt (score g + pointsPerFood g) else score g)).
Proof.
  intros Hrun Hhead Hgrow Hupd newHead hit.
  destruct (update_effect draw g h Hrun Hhead)
    as (c & g1 & Heq & _ & _ & _ & _ & _ & Hcase).
  rewrite Hupd in Heq. injection Heq as <- <-. fold newHead in Hcase.
  destruct (CollisionDetector.isOutOfBounds newHead (board g)) eqn:Hout; simpl in Hcase.
  { left. by destruct Hcase as (_ & _ & -> & _ & ->). }
  destruct (_ || _).
  { left. by destruct Hcase as (_ & _ & -> & _ & ->). }
  right. destruct Hcase as (_ & -> & _ & -> & _). split; [done|].
  rewrite (advance_snake draw newHead (afterInput g) Hgrow), advance_score.
  change (foodManager (afterInput g)) with (foodManager g). fold hit. simpl.
  split; [|done]. destruct hit; [done|].
  unfold Snake.getHead in Hhead.
  by destruct (Snake.body (snake g)) as [|h' rest].
Qed.

(** No tick shortens the snake. *)
Lemma reachable_length g :
  reachable rows cols startingLength ppf initialDirection g →
  Z.max 0 startingLength ≤ Z.of_nat (length (Snake.body (snake g))).
Proof.
  intros Hreach. pose proof Hreach as Hsettled. revert g Hreach Hsettled.
  apply (reachable_invariant (λ g, reachable rows cols startingLength ppf initialDirection g →
    Z.max 0 startingLength ≤ Z.of_nat (length (Snake.body (snake g))))).
  - intros draw g Hinit _.
    destruct (initializeBoard_parts draw new g Hinit)
      as (b0 & _ & _ & _ & -> & _). rewrite length_layout. lia.
  - intros d g Hreach IH _. by apply IH.
  - intros draw g h continues g' Hreach IH Hrun Hhead Hupd _.
    destruct (reachable_settled _ _ _ _ _ _ Hreach) as [Hppf Hgrow].
    specialize (IH Hreach).
    destruct (update_snake draw g h continues g' Hrun Hhead Hgrow Hupd)
      as [[-> _]|(_ & -> & _)]; [done|].
    unfold Snake.getHead in Hhead.
    destruct (Snake.body (snake g)) as [|h' rest] eqn:Hbody; [done|].
    destruct (CollisionDetector.isFood _ _).
    + simpl length in *. lia.
    + change (length (_ :: removelast (h' :: rest)))
        with (S (length (removelast (h' :: rest)))).
      rewrite length_removelast_cons. done.
Qed.

(** The score is the points per food times the number of segments gained,
    as the [int] additions of [update] leave it. *)
Lemma reachable_score g :
  reachable rows cols startingLength ppf initialDirection g →
  score g
  = wrapInt (ppf * (Z.of_nat (length (Snake.body (snake g))) - Z.max 0 startingLength)).
Proof.
  intros Hreach. pose proof Hreach as Hsettled. revert g Hreach Hsettled.
  apply (reachable_invariant (λ g, reachable rows cols startingLength ppf initialDirection g →
    score g
    = wrapInt (ppf * (Z.of_nat (length (Snake.body (snake g))) - Z.max 0 startingLength)))).
  - intros draw g Hinit _.
    destruct (initializeBoard_parts draw new g Hinit)
      as (b0 & _ & _ & _ & -> & -> & _). rewrite length_layout.
    replace (ppf * (Z.of_nat (Z.to_nat startingLength) - Z.max 0 startingLength))
      with 0 by lia. reflexivity.
  - intros d g Hreach IH _. by apply IH.
  - intros draw g h continues g' Hreach IH Hrun Hhead Hupd _.
    destruct (reachable_settled _ _ _ _ _ _ Hreach) as [Hppf Hgrow].
    destruct (update_snake draw g h continues g' Hrun Hhead Hgrow Hupd)
      as [[-> ->]|(_ & -> & ->)]; [by apply IH|].
    rewrite (IH Hreach), Hppf. unfold Snake.getHead in Hhead.
    destruct (Snake.body (snake g)) as [|h' rest] eqn:Hbody; [done|].
    destruct (CollisionDetector.isFood _ _).
    + rewrite wrapInt_add. f_equal. simpl length. lia.
    + change (length (_ :: removelast (h' :: rest)))
        with (S (length (removelast (h' :: rest)))).
      by rewrite length_removelast_cons.
Qed.

(** With a positive starting length the snake always has a head, and on a
    board with a cell the head is on the board. *)
Lemma reachable_head g :
  1 ≤ startingLength →
  reachable rows cols startingLength ppf initialDirection g →
  ∃ h, Snake.getHead (snake g) = Some h
       ∧ (1 ≤ rows → 1 ≤ cols → inB (board g) h).
Proof.
  intros Hlen Hreach. pose proof Hreach as Hkeep. revert g Hreach Hkeep.
  apply (reachable_invariant (λ g, reachable rows cols startingLength ppf initialDirection g →
    ∃ h, Snake.getHead (snake g) = Some h ∧ (1 ≤ rows → 1 ≤ cols → inB (board g) h))).
  - intros draw g Hinit Hreach.
    destruct (initializeBoard_parts draw new g Hinit) as (b0 & _ & _ & _ & Hbody & _).
    destruct (reachable_board g Hreach) as (_ & [Hr Hc] & _).
    exists (rows `quot` 2, cols `quot` 2). split.
    + unfold Snake.getHead. rewrite Hbody. unfold layout.
      rewrite seqZ_cons by lia. simpl. unfold Snake.segment.
      destruct initialDirection; f_equal; f_equal; lia.
    + intros Hrows Hcols. apply inB_spec. rewrite Hr, Hc. simpl.
      pose proof (Z.quot_pos rows 2). pose proof (Z.quot_lt rows 2).
      pose proof (Z.quot_pos cols 2). pose proof (Z.quot_lt cols 2). lia.
  - intros d g Hreach IH _. by apply IH.
  - intros draw g h continues g' Hreach IH Hrun Hhead Hupd Hreach'.
    destruct (IH Hreach) as (h0 & Hh0 & Hin). rewrite Hhead in Hh0. injection Hh0 as <-.
    destruct (reachable_settled _ _ _ _ _ _ Hreach) as [_ Hgrow].
    destruct (reachable_board g Hreach) as (_ & [Hr Hc] & _).
    destruct (reachable_board g' Hreach') as (_ & [Hr' Hc'] & _).
    destruct (update_snake draw g h continues g' Hrun Hhead Hgrow Hupd)
      as [[Hsnake _]|(Hout & Hbody & _)].
    + exists h. rewrite Hsnake. split; [done|]. intros Hrows Hcols.
      apply (inB_dims (board g)); [congruence | congruence | by apply Hin].
    + eexists. unfold Snake.getHead. rewrite Hbody. split; [done|]. intros _ _.
      apply (inB_dims (board g)); [congruence | congruence |].
      unfold CollisionDetector.isOutOfBounds in Hout. by apply negb_false_iff in Hout.
Qed.

End GameMore.

(** X10. In every reachable state the accessors of the render thread read
    the live state: [getRows] and [getCols] return the dimensions given to
    [initializeBoard], [getScore] and [isGameOver] return the score and the
    terminal flag, [getCellType] returns what [Board::getCellType] returns
    on the live board, and the snapshot holds the live snake and food. *)
Theorem accessors_read_live_state (rows cols startingLength pointsPerFood : Z)
    (initialDirection : Direction) (g : SnakeGameLogic.t) :
  reachable rows cols startingLength pointsPerFood initialDirection g →
  SnakeGameLogic.getRows g = rows
  ∧ SnakeGameLogic.getCols g = cols
  ∧ SnakeGameLogic.getScore g = SnakeGameLogic.score g
  ∧ SnakeGameLogic.isGameOver g = SnakeGameLogic.gameOver g
  ∧ (∀ r c, SnakeGameLogic.getCellType g r c
            = Board.getCellType (SnakeGameLogic.board g) r c)
  ∧ gs_snake (SnakeGameLogic.current g) = Snake.getBody (SnakeGameLogic.snake g)
  ∧ gs_foodExists (SnakeGameLogic.current g)
    = FoodManager.isPresent (SnakeGameLogic.foodManager g)
  ∧ gs_food (SnakeGameLogic.current g)
    = FoodManager.getPosition (SnakeGameLogic.foodManager g).
Proof.
  intros Hreach.
  destruct (reachable_board _ _ _ _ _ g Hreach) as (_ & [Hr Hc] & _ & Hcur).
  unfold SnakeGameLogic.getRows, SnakeGameLogic.getCols, SnakeGameLogic.getScore,
    SnakeGameLogic.isGameOver, SnakeGameLogic.getCellType.
  rewrite Hcur. simpl. split_and!; try done.
  intros r c. unfold Board.getCellType, Board.isInBounds, Board.getRows, Board.getCols,
    Board.getGrid.
  by destruct (_ && _).
Qed.

Lemma accessors_read_live_state_witness :
  SnakeGameLogic.getScore twoTicksLater = 0
  ∧ SnakeGameLogic.getCellType twoTicksLater 5 7 = SNAKE.
Proof.
  destruct (accessors_read_live_state 10 10 3 10 RIGHT twoTicksLater)
    as (_ & _ & Hscore & _ & Hcell & _).
  - apply (run_reachable _ _ _ _ _ [Update 0; Update 0] opening).
    + by apply (started_reachable _ _ _ _ _ 0%nat).
    + reflexivity.
  - rewrite Hscore, Hcell. split; reflexivity.
Defined.

(** X11. No cell of a reachable board carries [WALL]: [isWall] answers
    [true] exactly for the positions outside the board, so the wall check
    of [update], which follows the out-of-bounds check, never ends a
    tick. *)
Theorem wall_check_never_fires (rows cols startingLength pointsPerFood : Z)
    (initialDirection : Direction) (g : SnakeGameLogic.t) (pos : Position) :
  reachable rows cols startingLength pointsPerFood initialDirection g →
  CollisionDetector.isWall pos (SnakeGameLogic.board g)
  = CollisionDetector.isOutOfBounds pos (SnakeGameLogic.board g)
  ∧ (CollisionDetector.isOutOfBounds pos (SnakeGameLogic.board g) = false →
     Board.getCellType (SnakeGameLogic.board g) pos.1 pos.2 ∈ [EMPTY; SNAKE; FOOD]).
Proof.
  intros Hreach.
  destruct (reachable_board _ _ _ _ _ g Hreach) as ([_ Hnowall] & _).
  unfold CollisionDetector.isWall, CollisionDetector.isOutOfBounds.
  rewrite getCellType_cellAt.
  destruct (Board.isInBounds (SnakeGameLogic.board g) pos.1 pos.2) eqn:Hin; simpl.
  - specialize (Hnowall pos Hin). split; [by apply bool_decide_eq_false|].
    intros _. destruct (cellAt (SnakeGameLogic.board g) pos); [| | |done].
    + by left.
    + right. by left.
    + right. right. by left.
  - by split.
Qed.

Lemma wall_check_never_fires_witness :
  CollisionDetector.isWall (5, 8) (SnakeGameLogic.board twoTicksLater) = false
  ∧ CollisionDetector.isWall (5, 10) (SnakeGameLogic.board twoTicksLater) = true.
Proof.
  assert (Hreach : reachable 10 10 3 10 RIGHT twoTicksLater).
  { apply (run_reachable _ _ _ _ _ [Update 0; Update 0] opening).
    - by apply (started_reachable _ _ _ _ _ 0%nat).
    - reflexivity. }
  split.
  - destruct (wall_check_never_fires 10 10 3 10 RIGHT twoTicksLater (5, 8) Hreach)
      as [-> _]. reflexivity.
  - destruct (wall_check_never_fires 10 10 3 10 RIGHT twoTicksLater (5, 10) Hreach)
      as [-> _]. reflexivity.
Defined.

(** X12. The value returned by [update] is the negation of the terminal
    flag it leaves behind, and the terminal state absorbs every later call:
    whatever calls of [setDirection] and [update] follow, they all return
    and the flag, board, snake, food, score and publisher stay as they
    are. *)
Theorem terminal_state_absorbs (g : SnakeGameLogic.t) :
  (∀ draw continues g',
     SnakeGameLogic.update draw g = Done (continues, g') →
     continues = negb (SnakeGameLogic.gameOver g'))
  ∧ (SnakeGameLogic.gameOver g = true →
     ∀ cs, ∃ g', run g cs = Done g'
                 ∧ SnakeGameLogic.gameOver g' = true
                 ∧ SnakeGameLogic.board g' = SnakeGameLogic.board g
                 ∧ SnakeGameLogic.snake g' = SnakeGameLogic.snake g
                 ∧ SnakeGameLogic.foodManager g' = SnakeGameLogic.foodManager g
                 ∧ SnakeGameLogic.score g' = SnakeGameLogic.score g
                 ∧ SnakeGameLogic.statePublisher g' = SnakeGameLogic.statePublisher g).
Proof.
  split.
  - intros draw continues g' Hupd.
    destruct (update_done _ _ _ _ Hupd) as [[Hover ->]|[Hrun [h Hhead]]].
    + unfold SnakeGameLogic.update in Hupd. rewrite Hover in Hupd.
      injection Hupd as <-. by rewrite Hover.
    + destruct (update_effect draw g h Hrun Hhead) as (c & g1 & Heq & Hc & _).
      rewrite Hupd in Heq. by injection Heq as <- <-.
  - intros Hover cs. revert g Hover. induction cs as [|c cs IH]; intros g Hover.
    + exists g. by split_and!.
    + destruct c as [d|draw]; simpl.
      * destruct (IH (SnakeGameLogic.setDirection d g) Hover) as (g' & Hrun & Hrest).
        exists g'. by split.
      * unfold SnakeGameLogic.update. rewrite Hover. by apply IH.
Qed.

Lemma terminal_state_absorbs_witness :
  ∃ g', run edgeHit [SetDirection LEFT; Update 3; Update 4] = Done g'
        ∧ SnakeGameLogic.gameOver g' = true.
Proof.
  destruct (terminal_state_absorbs edgeHit) as [_ Habsorb].
  destruct (Habsorb eq_refl [SetDirection LEFT; Update 3; Update 4])
    as (g' & Hrun & Hover & _).
  by exists g'.
Defined.

(** X13. A game started with at least one segment never runs [update] on an
    empty snake: in every reachable state the snake has a head and [update]
    returns; on a board with at least one row and one column the head is a
    cell of the board. *)
Theorem update_always_returns (rows cols startingLength pointsPerFood : Z)
    (initialDirection : Direction) (g : SnakeGameLogic.t) :
  1 ≤ startingLength →
  reachable rows cols startingLength pointsPerFood initialDirection g →
  (∀ draw, ∃ continues g', SnakeGameLogic.update draw g = Done (continues, g'))
  ∧ ∃ h, Snake.getHead (SnakeGameLogic.snake g) = Some h
         ∧ (1 ≤ rows → 1 ≤ cols →
            CollisionDetector.isOutOfBounds h (SnakeGameLogic.board g) = false).
Proof.
  intros Hlen Hreach.
  destruct (reachable_head _ _ _ _ _ g Hlen Hreach) as (h & Hhead & Hin).
  split.
  - intros draw. destruct (SnakeGameLogic.gameOver g) eqn:Hover.
    + exists false, g. unfold SnakeGameLogic.update. by rewrite Hover.
    + destruct (update_effect draw g h Hover Hhead) as (c & g' & Hupd & _).
      by exists c, g'.
  - exists h. split; [done|]. intros Hrows Hcols.
    unfold CollisionDetector.isOutOfBounds. by rewrite (Hin Hrows Hcols).
Qed.

Lemma update_always_returns_witness :
  ∃ continues g', SnakeGameLogic.update 0 tailChase = Done (continues, g').
Proof.
  destruct (update_always_returns 3 6 4 10 RIGHT tailChase) as [Hret _]; [lia | |].
  - apply (run_reachable _ _ _ _ _
             [SetDirection UP; Update 0; SetDirection LEFT; Update 0; SetDirection DOWN]
             (started 3 6 4 10 RIGHT 0)).
    + by apply (started_reachable _ _ _ _ _ 0%nat).
    + reflexivity.
  - apply Hret.
Defined.

(** X14. In every reachable state, for any initial direction, the snake has
    not lost a segment since [initializeBoard], and the score is the points
    per food times the number of segments gained since then, as the [int]
    additions of [update] leave it: the product wrapped into the range of
    [int], hence the product itself whenever it is representable as an
    [int].  The published snapshot shows the same relation between its
    score and its snake length. *)
Theorem score_counts_growth (rows cols startingLength pointsPerFood : Z)
    (initialDirection : Direction) (g : SnakeGameLogic.t) :
  reachable rows cols startingLength pointsPerFood initialDirection g →
  Z.max 0 startingLength ≤ Z.of_nat (Snake.getLength (SnakeGameLogic.snake g))
  ∧ SnakeGameLogic.score g
    = wrapInt (pointsPerFood * (Z.of_nat (Snake.getLength (SnakeGameLogic.snake g))
                                - Z.max 0 startingLength))
  ∧ SnakeGameLogic.getScore g
    = wrapInt (pointsPerFood * (gs_snakeLength (SnakeGameLogic.current g)
                                - Z.max 0 startingLength))
  ∧ (inInt (pointsPerFood * (Z.of_nat (Snake.getLength (SnakeGameLogic.snake g))
                             - Z.max 0 startingLength)) →
     SnakeGameLogic.score g
     = pointsPerFood * (Z.of_nat (Snake.getLength (SnakeGameLogic.snake g))
                        - Z.max 0 startingLength)
     ∧ SnakeGameLogic.getScore g
       = pointsPerFood * (gs_snakeLength (SnakeGameLogic.current g)
                          - Z.max 0 startingLength)).
Proof.
  intros Hreach. pose proof (reachable_score _ _ _ _ _ g Hreach) as Hscore.
  pose proof (reachable_length _ _ _ _ _ g Hreach) as Hlen.
  destruct (reachable_board _ _ _ _ _ g Hreach) as (_ & _ & _ & Hcur).
  assert (Hget : SnakeGameLogic.getScore g = SnakeGameLogic.score g).
  { unfold SnakeGameLogic.getScore. by rewrite Hcur. }
  assert (Hsnap : gs_snakeLength (SnakeGameLogic.current g)
                  = Z.of_nat (Snake.getLength (SnakeGameLogic.snake g))).
  { by rewrite Hcur. }
  rewrite Hget, Hsnap. unfold Snake.getLength. split_and!; try done.
  intros Hfits. by rewrite Hscore, (wrapInt_small _ Hfits).
Qed.

Lemma score_counts_growth_witness :
  SnakeGameLogic.score foodUnderSnake = 10 * (4 - 3).
Proof.
  destruct (score_counts_growth 2 2 3 10 NONE foodUnderSnake) as (_ & _ & _ & Hexact).
  - apply (run_reachable _ _ _ _ _
             [SetDirection UP; Update 0; SetDirection LEFT; Update 1;
              SetDirection DOWN; Update 0; SetDirection RIGHT]
             (started 2 2 3 10 NONE 0)).
    + by apply (started_reachable _ _ _ _ _ 0%nat).
    + by vm_compute.
  - destruct Hexact as [Hscore _].
    + change (inInt 10). unfold inInt, INT_MIN, INT_MAX. lia.
    + exact Hscore.
Defined.

(** The wrap-around is reached by a game: after [initializeBoard(1, 4, 1,
    INT_MAX, LEFT)] with the food drawn on (0,1), two ticks eat twice, and
    the second addition leaves the range of [int]: the scores published
    are 0, [INT_MAX] and -2, newest first -2. *)
Lemma score_wraps_around :
  ∃ g, run (started 1 4 1 INT_MAX LEFT 1) [Update 0; Update 0] = Done g
       ∧ reachable 1 4 1 INT_MAX LEFT g
       ∧ Snake.body (SnakeGameLogic.snake g) = [(0, 0); (0, 1); (0, 2)]
       ∧ SnakeGameLogic.score g = -2
       ∧ gs_score <$> published g = [-2; INT_MAX; 0].
Proof.
  eexists. split; [by vm_compute|]. split; [|by vm_compute].
  apply (run_reachable _ _ _ _ _ [Update 0; Update 0] (started 1 4 1 INT_MAX LEFT 1)).
  - by apply (started_reachable _ _ _ _ _ 1%nat).
  - by vm_compute.
Qed.

Section HistoryMore.
Import SnakeGameLogic.

(** Every published snapshot carries a snake length between the initial
    one and the live one, and the score that goes with its length; the
    lengths never increase towards the older snapshots. *)
Lemma reachable_history rows cols len ppf dir g :
  reachable rows cols len ppf dir g →
  lengthsDescend (published g)
  ∧ Forall (λ s, Z.max 0 len ≤ gs_snakeLength s
                 ∧ gs_snakeLength s ≤ Z.of_nat (length (Snake.body (snake g)))
                 ∧ gs_score s = wrapInt (ppf * (gs_snakeLength s - Z.max 0 len)))
      (published g).
Proof.
  intros Hreach. pose proof Hreach as Hkeep. revert g Hreach Hkeep.
  apply (reachable_invariant rows cols len ppf dir (λ g, reachable rows cols len ppf dir g →
    lengthsDescend (published g)
    ∧ Forall (λ s, Z.max 0 len ≤ gs_snakeLength s
                   ∧ gs_snakeLength s ≤ Z.of_nat (length (Snake.body (snake g)))
                   ∧ gs_score s = wrapInt (ppf * (gs_snakeLength s - Z.max 0 len)))
        (published g))).
  - intros draw g Hinit Hreach.
    pose proof (reachable_length _ _ _ _ _ g Hreach) as Hlen.
    pose proof (reachable_score _ _ _ _ _ g Hreach) as Hscore.
    destruct (initializeBoard_parts _ _ _ _ _ draw new g Hinit)
      as (b0 & _ & _ & _ & _ & _ & _ & _ & ->).
    split; repeat constructor; done.
  - intros d g Hreach IH _. by apply IH.
  - intros draw g h continues g' Hreach IH Hrun Hhead Hupd Hreach'.
    destruct (IH Hreach) as [Hsorted Hbound].
    pose proof (reachable_length _ _ _ _ _ g' Hreach') as Hlen.
    pose proof (reachable_score _ _ _ _ _ g' Hreach') as Hscore.
    destruct (reachable_settled _ _ _ _ _ _ Hreach) as [Hp Hgrow].
    destruct (update_effect draw g h Hrun Hhead) as (c & g1 & Heq & _ & _ & Hpub & _).
    rewrite Hupd in Heq. injection Heq as <- <-.
    assert (Hgrows : Z.of_nat (length (Snake.body (snake g)))
                     ≤ Z.of_nat (length (Snake.body (snake g')))).
    { destruct (update_snake draw g h continues g' Hrun Hhead Hgrow Hupd)
        as [[-> _]|(_ & -> & _)]; [lia|].
      unfold Snake.getHead in Hhead.
      destruct (Snake.body (snake g)) as [|h' rest]; [done|].
      destruct (CollisionDetector.isFood _ _).
      - simpl length. lia.
      - change (length (_ :: removelast (h' :: rest)))
          with (S (length (removelast (h' :: rest)))).
        rewrite length_removelast_cons. simpl length. lia. }
    assert (Hbound' : Forall (λ s, Z.max 0 len ≤ gs_snakeLength s
                   ∧ gs_snakeLength s ≤ Z.of_nat (length (Snake.body (snake g')))
                   ∧ gs_score s = wrapInt (ppf * (gs_snakeLength s - Z.max 0 len)))
        (published g)).
    { eapply Forall_impl; [exact Hbound|]. simpl. intros s (Hlo & Hhi & Hs).
      split_and!; [done | lia | done]. }
    rewrite Hpub. split.
    + constructor; [done|]. eapply Forall_impl; [exact Hbound'|].
      simpl. intros s (_ & Hhi & _). exact Hhi.
    + constructor; [|done]. simpl. split_and!; [done | done | exact Hscore].
Qed.

(** Where no product overflows, the scores are ordered as the lengths. *)
Lemma scores_follow_lengths (ppf base top : Z) (l : list GameState) :
  0 ≤ ppf → ppf * (top - base) ≤ INT_MAX →
  lengthsDescend l →
  Forall (λ s, base ≤ gs_snakeLength s ∧ gs_snakeLength s ≤ top
               ∧ gs_score s = wrapInt (ppf * (gs_snakeLength s - base))) l →
  scoresDescend l ∧ Forall (λ s, gs_score s = ppf * (gs_snakeLength s - base)) l.
Proof.
  intros Hppf Hfits Hsorted Hall.
  assert (Hexact : Forall (λ s, gs_score s = ppf * (gs_snakeLength s - base)) l).
  { eapply Forall_impl; [exact Hall|]. simpl. intros s (Hlo & Hhi & ->).
    apply wrapInt_small. unfold inInt, INT_MIN. nia. }
  split; [|done]. clear Hall.
  induction Hsorted as [|s l Hsorted IH Hs]; [constructor|].
  apply Forall_cons_1 in Hexact as [Hhead Hrest].
  constructor; [by apply IH|].
  rewrite list.Forall_forall in Hs, Hrest |- *. intros older Hin.
  specialize (Hs older Hin). rewrite Hhead, (Hrest older Hin). nia.
Qed.

Lemma update_publisher draw g continues g' :
  update draw g = Done (continues, g') →
  statePublisher g' = statePublisher g
  ∨ statePublisher g'
    = StatePublisher.publish (board g') (snake g') (foodManager g') (score g')
        (gameOver g') (statePublisher g).
Proof.
  intros Hupd. destruct (update_done _ _ _ _ Hupd) as [[_ ->]|[Hrun [h Hhead]]]; [by left|].
  right. revert Hupd. rewrite (update_unfold draw g h Hrun Hhead). cbv zeta.
  pose proof (advance_publisher draw
    (DirectionController.getNextPosition (directionController (afterInput g)) h)
    (afterInput g)) as Hpub.
  destruct (_ || _ || _); [by intros [= _ <-]|].
  destruct (boardFull _); intros [= _ <-]; unfold publish;
    cbn [statePublisher board snake foodManager score gameOver]; f_equal; exact Hpub.
Qed.

(** After the first publish the write buffer is not the published one. *)
Lemma reachable_buffers rows cols len ppf dir g :
  reachable rows cols len ppf dir g →
  StatePublisher.writeBuffer (statePublisher g)
  ≠ StatePublisher.readBuffer (statePublisher g)
  ∧ StatePublisher.currentState (statePublisher g)
    = StatePublisher.readBuffer (statePublisher g).
Proof.
  induction 1 as [draw g Hinit|d g _ IH|draw g continues g' _ IH Hupd].
  - unfold initializeBoard in Hinit.
    destruct (Board.initialize rows cols); [|done|done].
    destruct (Snake.initialize _ _ _ _). destruct (FoodManager.placeRandom _ _ _).
    injection Hinit as <-. by simpl.
  - done.
  - destruct (update_publisher draw g continues g' Hupd) as [->| ->]; [done|].
    destruct IH as [Hne Hcur]. simpl. split; [by intros ?|done].
Qed.

End HistoryMore.

(** X15. With non-negative points per food, and as long as the points per
    food times the number of segments gained so far is representable as an
    [int] (no addition to the score has overflowed), the score has never
    gone down: the scores of the snapshots published so far, newest first,
    never increase towards the older ones, and none exceeds the live
    score.  (Past that bound the order fails: see [score_wraps_around].) *)
Theorem published_scores_never_decrease (rows cols startingLength pointsPerFood : Z)
    (initialDirection : Direction) (g : SnakeGameLogic.t) :
  0 ≤ pointsPerFood →
  reachable rows cols startingLength pointsPerFood initialDirection g →
  pointsPerFood * (Z.of_nat (Snake.getLength (SnakeGameLogic.snake g))
                   - Z.max 0 startingLength) ≤ INT_MAX →
  scoresDescend (published g)
  ∧ ∀ s, s ∈ published g → gs_score s ≤ SnakeGameLogic.getScore g.
Proof.
  intros Hppf Hreach Hfits. unfold Snake.getLength in Hfits.
  destruct (reachable_history _ _ _ _ _ g Hreach) as [Hsorted Hbound].
  destruct (scores_follow_lengths _ _ _ _ Hppf Hfits Hsorted Hbound) as [Hdesc Hexact].
  split; [done|]. intros s Hs.
  destruct (reachable_board _ _ _ _ _ g Hreach) as (_ & _ & _ & Hcur).
  pose proof (reachable_score _ _ _ _ _ g Hreach) as Hscore.
  pose proof (reachable_length _ _ _ _ _ g Hreach) as Hlen.
  unfold SnakeGameLogic.getScore. rewrite Hcur. simpl.
  rewrite Hscore, wrapInt_small by (unfold inInt, INT_MIN; nia).
  rewrite (proj1 (list.Forall_forall _ _) Hexact s Hs).
  destruct (proj1 (list.Forall_forall _ _) Hbound s Hs) as (Hlo & Hhi & _). nia.
Qed.

Lemma published_scores_never_decrease_witness :
  scoresDescend (published foodUnderSnake)
  ∧ gs_score <$> published foodUnderSnake = [10; 10; 0; 0].
Proof.
  split; [|reflexivity].
  apply (published_scores_never_decrease 2 2 3 10 NONE foodUnderSnake).
  - lia.
  - apply (run_reachable _ _ _ _ _
             [SetDirection UP; Update 0; SetDirection LEFT; Update 1;
              SetDirection DOWN; Update 0; SetDirection RIGHT]
             (started 2 2 3 10 NONE 0)).
    + by apply (started_reachable _ _ _ _ _ 0%nat).
    + by vm_compute.
  - change (10 ≤ INT_MAX). unfold INT_MAX. lia.
Defined.

(** X16. In every state of a game started with a heading, each segment of
    the snake is exactly one unit step from the next one. *)
Theorem segments_contiguous (rows cols startingLength pointsPerFood : Z)
    (initialDirection : Direction) (g : SnakeGameLogic.t) :
  initialDirection ≠ NONE →
  reachable rows cols startingLength pointsPerFood initialDirection g →
  contiguous (Snake.getBody (SnakeGameLogic.snake g)).
Proof.
  intros Hdir Hreach. pose proof Hreach as Hkeep. revert g Hreach Hkeep.
  apply (reachable_invariant rows cols startingLength pointsPerFood initialDirection
    (λ g, reachable rows cols startingLength pointsPerFood initialDirection g →
          contiguous (Snake.getBody (SnakeGameLogic.snake g)))).
  - intros draw g Hinit _.
    destruct (initializeBoard_parts _ _ _ _ _ draw SnakeGameLogic.new g Hinit)
      as (b0 & _ & _ & _ & Hbody & _).
    unfold Snake.getBody. rewrite Hbody. by apply contiguous_layout.
  - intros d g Hreach IH _. by apply IH.
  - intros draw g h continues g' Hreach IH Hrun Hhead Hupd _.
    destruct (reachable_settled _ _ _ _ _ _ Hreach) as [_ Hgrow].
    pose proof (reachable_consistent _ _ _ _ _ g Hdir Hreach) as Hcons.
    destruct (processInput_heading _ (cons_heading g Hcons) (cons_next g Hcons))
      as [Hheading _].
    unfold Snake.getBody in *.
    destruct (update_snake draw g h continues g' Hrun Hhead Hgrow Hupd)
      as [[-> _]|(_ & -> & _)]; [by apply IH|].
    unfold Snake.getHead in Hhead.
    destruct (Snake.body (SnakeGameLogic.snake g)) as [|h' rest] eqn:Hbody; [done|].
    injection Hhead as ->. specialize (IH Hreach).
    destruct (CollisionDetector.isFood _ _).
    + apply contiguous_cons; [done|]. intros q [= <-].
      by apply getNextPosition_adjacent.
    + apply contiguous_cons; [by apply contiguous_removelast|].
      destruct rest as [|q' rest]; [done|]. intros q [= <-].
      by apply getNextPosition_adjacent.
Qed.

Lemma segments_contiguous_witness :
  contiguous (Snake.getBody (SnakeGameLogic.snake tailChase)).
Proof.
  apply (segments_contiguous 3 6 4 10 RIGHT tailChase); [discriminate|].
  apply (run_reachable _ _ _ _ _
           [SetDirection UP; Update 0; SetDirection LEFT; Update 0; SetDirection DOWN]
           (started 3 6 4 10 RIGHT 0)).
  - by apply (started_reachable _ _ _ _ _ 0%nat).
  - reflexivity.
Defined.

(** X17. A snapshot taken in a reachable state survives the next tick: the
    call of [update] that follows writes the other buffer, and the reader
    still reads the same values through the pointer it holds. *)
Theorem held_snapshot_survives_next_tick (rows cols startingLength pointsPerFood : Z)
    (initialDirection : Direction) (draw : nat) (g : SnakeGameLogic.t)
    (continues : bool) (g' : SnakeGameLogic.t) :
  reachable rows cols startingLength pointsPerFood initialDirection g →
  SnakeGameLogic.update draw g = Done (continues, g') →
  StatePublisher.deref (SnakeGameLogic.statePublisher g') (SnakeGameLogic.getGameState g)
  = StatePublisher.deref (SnakeGameLogic.statePublisher g) (SnakeGameLogic.getGameState g).
Proof.
  intros Hreach Hupd. destruct (reachable_buffers _ _ _ _ _ g Hreach) as [Hne Hcur].
  destruct (update_publisher draw g continues g' Hupd) as [->| ->]; [done|].
  unfold SnakeGameLogic.getGameState, StatePublisher.getState, StatePublisher.deref,
    StatePublisher.publish. rewrite Hcur. simpl.
  destruct (StatePublisher.writeBuffer _), (StatePublisher.readBuffer _); done.
Qed.

Lemma held_snapshot_survives_next_tick_witness :
  gs_snake (StatePublisher.deref
              (SnakeGameLogic.statePublisher (after opening [Update 0]))
              (SnakeGameLogic.getGameState opening))
  = [(5, 5); (5, 4); (5, 3)].
Proof.
  rewrite (held_snapshot_survives_next_tick 10 10 3 10 RIGHT 0 opening true
             (after opening [Update 0])); [reflexivity | | by vm_compute].
  by apply (started_reachable _ _ _ _ _ 0%nat).
Defined.

(** ** SnakeGameLogic: the food and the cells of a game with a heading *)

Section FoodInvariant.
Import SnakeGameLogic.

Lemma placeRandom_foodTagged draw (f : FoodManager.t) (b : Board.t) :
  wf_board b → (∀ p, inB b p → cellAt b p ≠ FOOD) →
  foodTagged (FoodManager.placeRandom draw f b).2 (FoodManager.placeRandom draw f b).1.
Proof.
  intros Hwf Hnone.
  destruct (placeRandom_cases draw f b) as [[_ ->]|(q & Hq & ->)]; simpl.
  - intros p Hp. simpl. split; [by intros ?%Hnone | by intros [? _]].
  - apply elem_of_getEmptyCells in Hq as [Hq _].
    intros p Hp. apply inB_setCell in Hp. simpl.
    destruct (decide (p = q)) as [->|Hne].
    + by rewrite cellAt_setCell_eq.
    + rewrite cellAt_setCell_ne by done. split; [by intros ?%Hnone | by intros [_ ?]].
Qed.

Lemma eat_foodTagged p g :
  marked g → foodTagged (board g) (foodManager g) →
  foodTagged (board (eat p g)) (foodManager (eat p g)).
Proof.
  intros (Hwf & _ & Hfood) Htag. unfold eat.
  destruct (CollisionDetector.isFood p (foodManager g)) eqn:Hhit; [|done].
  apply isFood_true in Hhit as [Hex ->]. unfold FoodManager.remove. rewrite Hex. simpl.
  destruct (Hfood Hex) as [Hin _].
  fold (setCell (board g) (FoodManager.position (foodManager g)) EMPTY).
  intros q Hq. apply inB_setCell in Hq. simpl. split; [|by intros [? _]].
  destruct (decide (q = FoodManager.position (foodManager g))) as [->|Hne].
  - by rewrite cellAt_setCell_eq.
  - rewrite cellAt_setCell_ne by done. intros Hcell. by apply Htag in Hcell as [_ ?].
Qed.

Lemma moveSnake_foodTagged p g :
  marked g → foodTagged (board g) (foodManager g) →
  NoDup (p :: Snake.body (snake g)) → inB (board g) p →
  Snake.body (snake g) ≠ [] →
  (FoodManager.exists_ (foodManager g) = true →
   FoodManager.position (foodManager g) ≠ p) →
  foodTagged (board (moveSnake p g)) (foodManager (moveSnake p g)).
Proof.
  intros (Hwf & Hcells & Hfood) Htag Hnd Hin Hbody Hfresh. unfold moveSnake.
  destruct (Z.ltb_spec 0 (Snake.growthPending (snake g))) as [Hgrow|Hgrow].
  - rewrite move_grow by done. simpl. intros q Hq. apply inB_setCell in Hq.
    destruct (decide (q = p)) as [->|Hne].
    + rewrite cellAt_setCell_eq by done. split; [done|]. intros [Hex Heq].
      by destruct (Hfresh Hex).
    + rewrite cellAt_setCell_ne by done. by apply Htag.
  - destruct (exists_last Hbody) as (front & tail & Hsplit).
    rewrite (move_shift p _ _ front tail) by done. simpl.
    assert (Hwf1 : wf_board (setCell (board g) p SNAKE)) by by apply setCell_wf.
    intros q Hq. apply inB_setCell, inB_setCell in Hq.
    assert (Hq1 : inB (setCell (board g) p SNAKE) q) by by apply inB_setCell.
    destruct (decide (q = tail)) as [->|Hnt].
    + rewrite cellAt_setCell_eq by done. split; [done|]. intros [Hex Heq].
      destruct (Hfood Hex) as [_ Hcell].
      assert (cellAt (board g) tail = SNAKE); [|congruence].
      apply Hcells; [done|]. rewrite Hsplit. apply elem_of_app. right. by left.
    + rewrite cellAt_setCell_ne by done.
      destruct (decide (q = p)) as [->|Hne].
      * rewrite cellAt_setCell_eq by done. split; [done|]. intros [Hex Heq].
        by destruct (Hfresh Hex).
      * rewrite cellAt_setCell_ne by done. by apply Htag.
Qed.

Lemma refillFood_foodTagged draw g :
  marked g → foodTagged (board g) (foodManager g) →
  foodTagged (board (refillFood draw g)) (foodManager (refillFood draw g)).
Proof.
  intros (Hwf & _ & _) Htag. unfold refillFood, FoodManager.isPresent.
  destruct (FoodManager.exists_ (foodManager g)) eqn:Hex; [done|]. simpl.
  pose proof (placeRandom_foodTagged draw (foodManager g) (board g) Hwf) as Hplace.
  destruct (FoodManager.placeRandom draw (foodManager g) (board g)) as [f' b'].
  simpl in *. apply Hplace. intros p Hp Hcell.
  apply Htag in Hcell as [? _]; [congruence | done].
Qed.

(** In a game started with a heading the [FOOD] cells are the cell of the
    food. *)
Lemma reachable_foodTagged rows cols len ppf dir g :
  dir ≠ NONE →
  reachable rows cols len ppf dir g →
  foodTagged (board g) (foodManager g).
Proof.
  intros Hdir Hreach. pose proof Hreach as Hkeep. revert g Hreach Hkeep.
  apply (reachable_invariant rows cols len ppf dir (λ g, reachable rows cols len ppf dir g →
    foodTagged (board g) (foodManager g))).
  - intros draw g Hinit _.
    destruct (initializeBoard_parts _ _ _ _ _ draw new g Hinit)
      as (b0 & Hb0 & -> & -> & _).
    apply placeRandom_foodTagged.
    + by apply markSnake_wf, (initialize_wf rows cols).
    + intros p Hp. apply inB_markSnake in Hp.
      rewrite cellAt_markSnake; [|by apply (initialize_wf rows cols) | done].
      case_decide; [done|]. by rewrite (initialize_empty rows cols b0 p Hb0 Hp).
  - intros d g Hreach IH _. by apply IH.
  - intros draw g h continues g' Hreach IH Hrun Hhead Hupd _.
    specialize (IH Hreach).
    pose proof (reachable_consistent _ _ _ _ _ g Hdir Hreach) as Hcons.
    pose proof (consistent_afterInput g Hcons) as Hcons1.
    destruct (update_effect draw g h Hrun Hhead)
      as (c & g1 & Heq & _ & _ & _ & _ & _ & Hcase).
    rewrite Hupd in Heq. injection Heq as <- <-.
    set (newHead := DirectionController.getNextPosition _ h) in *.
    destruct (CollisionDetector.isOutOfBounds newHead (board g)) eqn:Hout; simpl in Hcase.
    { by destruct Hcase as (_ & -> & _ & -> & _). }
    destruct (CollisionDetector.isWall newHead (board g)); simpl in Hcase.
    { by destruct Hcase as (_ & -> & _ & -> & _). }
    destruct (Snake.checkSelfCollision (snake g) newHead) eqn:Hself.
    { by destruct Hcase as (_ & -> & _ & -> & _). }
    destruct Hcase as (-> & _ & -> & _).
    assert (Hin : inB (board g) newHead).
    { unfold CollisionDetector.isOutOfBounds in Hout. by apply negb_false_iff in Hout. }
    unfold Snake.getHead in Hhead.
    destruct (Snake.body (snake g)) as [|h' rest] eqn:Hbody; [done|].
    injection Hhead as ->.
    assert (Hfresh : newHead ∉ h :: rest).
    { apply not_elem_of_cons. split.
      - apply getNextPosition_moves, Hcons1.
      - unfold Snake.checkSelfCollision in Hself. rewrite Hbody in Hself.
        apply bool_decide_eq_false in Hself. by rewrite skipn_cons, drop_0 in Hself. }
    destruct (eat_spec newHead (afterInput g) (consistent_marked _ Hcons1))
      as (Hm2 & (Hin2 & _) & Hbody2 & Hfood2 & _).
    change (Snake.body (snake (afterInput g))) with (Snake.body (snake g)) in Hbody2.
    rewrite Hbody in Hbody2.
    pose proof (eat_foodTagged newHead (afterInput g) (consistent_marked _ Hcons1) IH)
      as Htag2.
    set (g2 := eat newHead (afterInput g)) in *.
    assert (Hnd : NoDup (newHead :: Snake.body (snake g2))).
    { rewrite Hbody2. apply list.NoDup_cons. split; [done|]. rewrite <-Hbody. apply Hcons. }
    assert (Hin' : inB (board g2) newHead) by by apply Hin2.
    assert (Hne : Snake.body (snake g2) ≠ []) by by rewrite Hbody2.
    destruct (moveSnake_spec newHead g2 Hm2 Hnd Hin' Hne Hfood2) as (Hm3 & _).
    pose proof (moveSnake_foodTagged newHead g2 Hm2 Htag2 Hnd Hin' Hne Hfood2) as Htag3.
    by apply refillFood_foodTagged.
Qed.

End FoodInvariant.

(** X18. In every state of a game started with a heading, a food that
    exists lies on the board, on a cell that reads [FOOD] and holds no
    segment of the snake, and it is the only cell that reads [FOOD]; when
    no food exists no cell reads [FOOD]. *)
Theorem food_on_its_own_cell (rows cols startingLength pointsPerFood : Z)
    (initialDirection : Direction) (g : SnakeGameLogic.t) :
  initialDirection ≠ NONE →
  reachable rows cols startingLength pointsPerFood initialDirection g →
  let food := SnakeGameLogic.foodManager g in
  (∀ r c, Board.getCellType (SnakeGameLogic.board g) r c = FOOD
          ↔ FoodManager.isPresent food = true ∧ (r, c) = FoodManager.getPosition food)
  ∧ (FoodManager.isPresent food = true →
     FoodManager.getPosition food ∉ Snake.getBody (SnakeGameLogic.snake g)).
Proof.
  intros Hdir Hreach food.
  pose proof (reachable_foodTagged _ _ _ _ _ g Hdir Hreach) as Htag.
  pose proof (reachable_consistent _ _ _ _ _ g Hdir Hreach) as Hcons.
  split.
  - intros r c. rewrite (getCellType_cellAt _ (r, c)). simpl.
    destruct (Board.isInBounds (SnakeGameLogic.board g) r c) eqn:Hin.
    + by apply (Htag (r, c)).
    + split; [done|]. intros [Hex Hpos].
      destruct (cons_food g Hcons Hex) as [Hfin _].
      unfold FoodManager.getPosition in Hpos. fold food in Hfin. rewrite <-Hpos in Hfin.
      unfold inB in Hfin. simpl in Hfin. congruence.
  - intros Hex Hbody. destruct (cons_food g Hcons Hex) as [Hfin Hcell].
    assert (cellAt (SnakeGameLogic.board g) (FoodManager.position food) = SNAKE);
      [|fold food in Hcell; congruence].
    by apply (cons_cells g Hcons).
Qed.

Lemma food_on_its_own_cell_witness :
  FoodManager.getPosition (SnakeGameLogic.foodManager twoTicksLater)
  ∉ Snake.getBody (SnakeGameLogic.snake twoTicksLater).
Proof.
  destruct (food_on_its_own_cell 10 10 3 10 RIGHT twoTicksLater) as [_ Hoff];
    [discriminate | |].
  - apply (run_reachable _ _ _ _ _ [Update 0; Update 0] opening).
    + by apply (started_reachable _ _ _ _ _ 0%nat).
    + reflexivity.
  - by apply Hoff.
Defined.

Section Accounting.
Import SnakeGameLogic.

Lemma length_bind_app {A B} (f f' : A → list B) (l : list A) :
  length (l ≫= λ x, f x ++ f' x) = (length (l ≫= f) + length (l ≫= f'))%nat.
Proof.
  induction l as [|x l IH]; [done|].
  rewrite !bind_cons, !length_app, IH. lia.
Qed.

(** Every cell in the loop range is counted under exactly one tag. *)
Lemma cells_partition grid rows cols :
  (length (Board.cellsWith EMPTY grid rows cols)
   + length (Board.cellsWith SNAKE grid rows cols)
   + length (Board.cellsWith FOOD grid rows cols)
   + length (Board.cellsWith WALL grid rows cols))%nat
  = (Z.to_nat rows * Z.to_nat cols)%nat.
Proof.
  unfold Board.cellsWith. rewrite <-!length_bind_app.
  rewrite (length_bind_const _ _ (Z.to_nat cols)); [by rewrite length_seqZ|].
  intros r _. rewrite !length_app, <-!length_bind_app.
  rewrite (length_bind_const _ _ 1%nat); [rewrite length_seqZ; lia|].
  intros c _. destruct (Board.at_ grid r c); by repeat case_decide.
Qed.

Lemma length_food_cells (b : Board.t) (f : FoodManager.t) :
  foodTagged b f → foodMarked b f →
  length (Board.cellsWith FOOD (Board.grid b) (Board.rows b) (Board.cols b))
  = if FoodManager.exists_ f then 1%nat else 0%nat.
Proof.
  intros Htag Hfood.
  assert (Hperm : Board.cellsWith FOOD (Board.grid b) (Board.rows b) (Board.cols b)
                  ≡ₚ if FoodManager.exists_ f then [FoodManager.position f] else []).
  { apply NoDup_Permutation; [apply NoDup_cellsWith | |].
    - destruct (FoodManager.exists_ f); [apply NoDup_singleton | apply NoDup_nil_2].
    - intros p. rewrite elem_of_cellsWith, <-inB_spec.
      destruct (FoodManager.exists_ f) eqn:Hex.
      + rewrite list_elem_of_singleton. split.
        * intros [Hp Hcell]. by apply Htag in Hcell as [_ ?].
        * intros ->. by apply Hfood.
      + split; [|by intros ?%not_elem_of_nil].
        intros [Hp Hcell]. apply Htag in Hcell as [? _]; [congruence | done]. }
  rewrite Hperm. by destruct (FoodManager.exists_ f).
Qed.

Lemma length_wall_cells (b : Board.t) :
  sound b →
  length (Board.cellsWith WALL (Board.grid b) (Board.rows b) (Board.cols b)) = 0%nat.
Proof.
  intros [_ Hnowall].
  destruct (Board.cellsWith WALL _ _ _) as [|p l] eqn:Hcells; [done|].
  assert (Hp : p ∈ Board.cellsWith WALL (Board.grid b) (Board.rows b) (Board.cols b)).
  { rewrite Hcells. by left. }
  apply elem_of_cellsWith in Hp as [Hp Hcell]. apply inB_spec in Hp.
  by destruct (Hnowall p Hp).
Qed.

End Accounting.

(** X19. In a game started with a heading and with all initial segments on
    the board, every cell is empty, under the snake or under the food: the
    number of empty cells, the length of the snake and one for an existing
    food add up to [rows * cols].  When no food exists the snake covers the
    whole board. *)
Theorem cells_add_up (rows cols startingLength pointsPerFood : Z)
    (initialDirection : Direction) (g : SnakeGameLogic.t) :
  initialDirection ≠ NONE →
  fitsBoard rows cols startingLength initialDirection →
  reachable rows cols startingLength pointsPerFood initialDirection g →
  Z.of_nat (length (Board.getEmptyCells (SnakeGameLogic.board g)))
  + Z.of_nat (Snake.getLength (SnakeGameLogic.snake g))
  + (if FoodManager.isPresent (SnakeGameLogic.foodManager g) then 1 else 0)
  = rows * cols
  ∧ (FoodManager.isPresent (SnakeGameLogic.foodManager g) = false →
     Z.of_nat (Snake.getLength (SnakeGameLogic.snake g)) = rows * cols).
Proof.
  intros Hdir Hfits Hreach.
  pose proof (reachable_consistent _ _ _ _ _ g Hdir Hreach) as Hcons.
  destruct (reachable_counted _ _ _ _ _ g Hdir Hfits Hreach) as [Hon _].
  destruct (reachable_board _ _ _ _ _ g Hreach) as (Hsound & [Hr Hc] & Hnofood & _).
  pose proof (reachable_foodTagged _ _ _ _ _ g Hdir Hreach) as Htag.
  pose proof (cells_partition (Board.grid (SnakeGameLogic.board g))
                (Board.rows (SnakeGameLogic.board g))
                (Board.cols (SnakeGameLogic.board g))) as Hsum.
  rewrite (length_wall_cells _ Hsound) in Hsum.
  rewrite (length_food_cells _ _ Htag (cons_food g Hcons)) in Hsum.
  rewrite (Permutation_length
             (snake_cells_permutation _ _ (cons_nodup g Hcons) Hon (cons_cells g Hcons)))
    in Hsum.
  fold (Board.getEmptyCells (SnakeGameLogic.board g)) in Hsum.
  rewrite Hr, Hc in Hsum.
  destruct Hsound as [(Hrows & Hcols & _) _]. rewrite Hr in Hrows. rewrite Hc in Hcols.
  assert (Hprod : Z.of_nat (Z.to_nat rows * Z.to_nat cols) = rows * cols).
  { by rewrite Nat2Z.inj_mul, !Z2Nat.id. }
  unfold FoodManager.isPresent, Snake.getLength. split.
  - destruct (FoodManager.exists_ _); lia.
  - intros Hex. rewrite Hex in Hsum. rewrite (Hnofood Hex) in Hsum. simpl in Hsum. lia.
Qed.

Lemma cells_add_up_witness :
  Z.of_nat (length (Board.getEmptyCells (SnakeGameLogic.board twoTicksLater))) = 96.
Proof.
  destruct (cells_add_up 10 10 3 10 RIGHT twoTicksLater) as [Hsum _].
  - discriminate.
  - unfold fitsBoard. vm_compute. repeat constructor; discriminate.
  - apply (run_reachable _ _ _ _ _ [Update 0; Update 0] opening).
    + by apply (started_reachable _ _ _ _ _ 0%nat).
    + reflexivity.
  - change (Z.of_nat (Snake.getLength (SnakeGameLogic.snake twoTicksLater))) with 3 in Hsum.
    change (FoodManager.isPresent (SnakeGameLogic.foodManager twoTicksLater))
      with true in Hsum.
    lia.
Defined.

Section NeckFacts.
Import SnakeGameLogic.

(** While the game runs, the second segment is one step of the current
    heading behind the head. *)
Lemma reachable_neck rows cols len ppf dir g :
  dir ≠ NONE →
  reachable rows cols len ppf dir g →
  gameOver g = false →
  ∀ h n rest, Snake.body (snake g) = h :: n :: rest →
              DirectionController.getNextPosition (directionController g) n = h.
Proof.
  intros Hdir Hreach. pose proof Hreach as Hkeep. revert g Hreach Hkeep.
  apply (reachable_invariant rows cols len ppf dir (λ g, reachable rows cols len ppf dir g →
    gameOver g = false →
    ∀ h n rest, Snake.body (snake g) = h :: n :: rest →
                DirectionController.getNextPosition (directionController g) n = h)).
  - intros draw g Hinit _ _ h n rest Hbody.
    destruct (initializeBoard_done _ _ _ _ _ _ _ _ Hinit) as [Hrows Hcols].
    destruct (initializeBoard_spec rows cols len ppf dir draw new Hrows Hcols)
      as (g1 & Heq & _ & _ & _ & Hsnake & Hdc & _).
    rewrite Hinit in Heq. injection Heq as <-.
    rewrite Hsnake in Hbody. simpl in Hbody. rewrite Hdc.
    destruct (initialize_trails_layout (rows `quot` 2, cols `quot` 2) len dir Hdir
                0%nat h n) as [-> ->]; [by rewrite Hbody | by rewrite Hbody |].
    by apply segment_behind.
  - intros d g Hreach IH _ Hrun h n rest Hbody. by apply (IH Hreach Hrun h n rest).
  - intros draw g h0 continues g' Hreach IH Hrun Hhead Hupd _ Hrun' h n rest Hbody.
    destruct (reachable_settled _ _ _ _ _ _ Hreach) as [_ Hgrow].
    destruct (update_effect draw g h0 Hrun Hhead)
      as (c & g1 & Heq & _ & _ & _ & _ & Hdc & Hcase).
    rewrite Hupd in Heq. injection Heq as <- <-.
    destruct (update_snake draw g h0 continues g' Hrun Hhead Hgrow Hupd)
      as [[Hsnake _]|(Hout & Hbody' & _)].
    + (* a tick that left the snake in place ended the game *)
      destruct (_ || _ || _) eqn:Hcol.
      * destruct Hcase as (Hover & _). congruence.
      * destruct Hcase as (_ & Hs & _).
        apply orb_false_iff in Hcol as [Hcol _]. apply orb_false_iff in Hcol as [Hout _].
        rewrite (advance_snake draw _ (afterInput g) Hgrow) in Hs.
        rewrite Hsnake in Hs. apply (f_equal Snake.body) in Hs. simpl in Hs.
        unfold Snake.getHead in Hhead.
        destruct (Snake.body (snake g)) as [|h' rest'] eqn:Hb; [done|].
        exfalso. destruct (CollisionDetector.isFood _ _).
        -- apply (f_equal length) in Hs. simpl in Hs. lia.
        -- change (removelast (?p :: h' :: rest')) with (p :: removelast (h' :: rest')) in Hs.
           injection Hs as Hs _.
           pose proof (reachable_consistent _ _ _ _ _ g Hdir Hreach) as Hcons.
           pose proof (consistent_afterInput g Hcons) as Hcons1.
           injection Hhead as ->.
           by apply (getNextPosition_moves (directionController (afterInput g)) h0);
             [apply Hcons1|].
    + rewrite Hbody' in Hbody. rewrite Hdc. unfold Snake.getHead in Hhead.
      destruct (Snake.body (snake g)) as [|h' rest'] eqn:Hb; [done|].
      injection Hhead as ->.
      destruct (CollisionDetector.isFood _ _).
      * by injection Hbody as <- <- _.
      * destruct rest' as [|q rest']; [done|]. by injection Hbody as <- <- _.
Qed.

End NeckFacts.

(** X20. A snake with a heading never runs into its own neck: in a running
    game started with a heading, whatever direction was requested, the
    candidate head position of the next tick is not the position of the
    second segment. *)
Theorem candidate_is_never_the_neck (rows cols startingLength pointsPerFood : Z)
    (initialDirection : Direction) (g : SnakeGameLogic.t)
    (h n : Position) (rest : list Position) :
  initialDirection ≠ NONE →
  reachable rows cols startingLength pointsPerFood initialDirection g →
  SnakeGameLogic.gameOver g = false →
  Snake.getBody (SnakeGameLogic.snake g) = h :: n :: rest →
  SnakeGameLogic.candidate g ≠ Some n.
Proof.
  intros Hdir Hreach Hrun Hbody.
  pose proof (reachable_neck _ _ _ _ _ g Hdir Hreach Hrun h n rest Hbody) as Hneck.
  pose proof (reachable_consistent _ _ _ _ _ g Hdir Hreach) as Hcons.
  destruct Hcons as [_ _ _ Hcur Hnext _ _].
  unfold SnakeGameLogic.candidate, Snake.getHead. unfold Snake.getBody in Hbody.
  rewrite Hbody. simpl. intros [= Hcand].
  set (d := SnakeGameLogic.directionController g) in *.
  assert (Hnew : DirectionController.current (DirectionController.processInput d)
                 = DirectionController.current d
                 ∨ (DirectionController.current (DirectionController.processInput d)
                    = DirectionController.atomicInput d
                    ∧ DirectionController.isValidChange d (DirectionController.atomicInput d)
                      = true)).
  { unfold DirectionController.processInput. simpl.
    destruct (negb _); simpl; [|by left].
    destruct (DirectionController.isValidChange d _); [by right | by left]. }
  revert Hneck Hcand. unfold DirectionController.getNextPosition.
  destruct n as [nr nc], h as [hr hc].
  destruct Hnew as [->|[-> Hvalid]].
  - destruct (DirectionController.current d); intros [= ? ?] [= ? ?]; (lia || done).
  - revert Hvalid. unfold DirectionController.isValidChange.
    destruct (DirectionController.current d), (DirectionController.atomicInput d);
      intros Hvalid [= ? ?] [= ? ?]; (lia || done).
Qed.

Lemma candidate_is_never_the_neck_witness :
  SnakeGameLogic.candidate (SnakeGameLogic.setDirection RIGHT tailChase) ≠ Some (0, 3).
Proof.
  apply (candidate_is_never_the_neck 3 6 4 10 RIGHT
           (SnakeGameLogic.setDirection RIGHT tailChase) (0, 2) (0, 3) [(1, 3); (1, 2)]);
    [discriminate | | reflexivity | reflexivity].
  apply reach_setDirection.
  apply (run_reachable _ _ _ _ _
           [SetDirection UP; Update 0; SetDirection LEFT; Update 0; SetDirection DOWN]
           (started 3 6 4 10 RIGHT 0)).
  - by apply (started_reachable _ _ _ _ _ 0%nat).
  - reflexivity.
Defined.
